(** * Lyrio backend: user service and problem controller

    A shallow embedding of [src/user/user.service.ts] and
    [src/problem/problem.controller.ts].

    Every [async] method becomes a computation in a state-and-rejection
    monad.  Whatever lives outside the two files (the TypeORM repository and
    connection, [AuthService], [UserPrivilegeService], [ProblemService],
    [GroupService], a few JavaScript built-ins) is an interface, the classes
    [Platform] and [Deps]; the embedded methods are written once against that interface,
    and the theorems hold for every implementation of it.  [Testbed], at the
    end of the definitions, is one in-memory implementation used to run the
    methods on concrete requests. *)

From Stdlib Require Import ZArith String Ascii List Lia.
From stdpp Require Import base option list gmap strings.

Local Open Scope string_scope.
Local Open Scope Z_scope.
Local Open Scope list_scope.

(** ** Entities and DTOs *)

(** [UserEntity]: the columns the two files read or write. *)
Record UserEntity := mkUserEntity {
  user_id : Z;
  user_username : string;
  user_email : string;
  user_publicEmail : bool;
  user_bio : string;
  user_sexIsFamale : bool;
  user_organization : string;
  user_location : string;
  user_isAdmin : bool;
  user_acceptedProblemCount : Z;
  user_submissionCount : Z;
  user_rating : Z;
  user_registrationTime : Z
}.

#[global] Instance UserEntity_eq_dec : EqDecision UserEntity.
Proof. solve_decision. Defined.

(** Field assignments [user.f = v]. *)
Definition set_username (v : string) (u : UserEntity) : UserEntity :=
  mkUserEntity (user_id u) v (user_email u) (user_publicEmail u) (user_bio u)
    (user_sexIsFamale u) (user_organization u) (user_location u) (user_isAdmin u)
    (user_acceptedProblemCount u) (user_submissionCount u) (user_rating u)
    (user_registrationTime u).

Definition set_email (v : string) (u : UserEntity) : UserEntity :=
  mkUserEntity (user_id u) (user_username u) v (user_publicEmail u) (user_bio u)
    (user_sexIsFamale u) (user_organization u) (user_location u) (user_isAdmin u)
    (user_acceptedProblemCount u) (user_submissionCount u) (user_rating u)
    (user_registrationTime u).

Definition set_publicEmail (v : bool) (u : UserEntity) : UserEntity :=
  mkUserEntity (user_id u) (user_username u) (user_email u) v (user_bio u)
    (user_sexIsFamale u) (user_organization u) (user_location u) (user_isAdmin u)
    (user_acceptedProblemCount u) (user_submissionCount u) (user_rating u)
    (user_registrationTime u).

Definition set_bio (v : string) (u : UserEntity) : UserEntity :=
  mkUserEntity (user_id u) (user_username u) (user_email u) (user_publicEmail u) v
    (user_sexIsFamale u) (user_organization u) (user_location u) (user_isAdmin u)
    (user_acceptedProblemCount u) (user_submissionCount u) (user_rating u)
    (user_registrationTime u).

Definition set_sexIsFamale (v : bool) (u : UserEntity) : UserEntity :=
  mkUserEntity (user_id u) (user_username u) (user_email u) (user_publicEmail u)
    (user_bio u) v (user_organization u) (user_location u) (user_isAdmin u)
    (user_acceptedProblemCount u) (user_submissionCount u) (user_rating u)
    (user_registrationTime u).

Definition set_organization (v : string) (u : UserEntity) : UserEntity :=
  mkUserEntity (user_id u) (user_username u) (user_email u) (user_publicEmail u)
    (user_bio u) (user_sexIsFamale u) v (user_location u) (user_isAdmin u)
    (user_acceptedProblemCount u) (user_submissionCount u) (user_rating u)
    (user_registrationTime u).

Definition set_location (v : string) (u : UserEntity) : UserEntity :=
  mkUserEntity (user_id u) (user_username u) (user_email u) (user_publicEmail u)
    (user_bio u) (user_sexIsFamale u) (user_organization u) v (user_isAdmin u)
    (user_acceptedProblemCount u) (user_submissionCount u) (user_rating u)
    (user_registrationTime u).

(** The [information] argument of [updateUserProfile]. *)
Record UserInformation := mkUserInformation {
  info_bio : string;
  info_sexIsFamale : bool;
  info_organization : string;
  info_location : string
}.

(** [UserMetaDto], as the object literal of [getUserMeta] builds it. *)
Record UserMetaDto := mkUserMetaDto {
  meta_id : Z;
  meta_username : string;
  meta_email : option string;
  meta_gravatarEmailHash : string;
  meta_bio : string;
  meta_sexIsFamale : bool;
  meta_organization : string;
  meta_location : string;
  meta_isAdmin : bool;
  meta_acceptedProblemCount : Z;
  meta_submissionCount : Z;
  meta_rating : Z;
  meta_registrationTime : Z
}.

(** The members of [UpdateUserProfileResponseError] that the service returns. *)
Inductive UpdateUserProfileResponseError := DUPLICATE_USERNAME | DUPLICATE_EMAIL.

(** TypeORM's isolation levels; the service passes ["READ COMMITTED"]. *)
Inductive IsolationLevel :=
  READ_UNCOMMITTED | READ_COMMITTED | REPEATABLE_READ | SERIALIZABLE.

(** [ProblemPermissionType], the four levels the controller names. *)
Inductive ProblemPermissionType := CREATE | READ | WRITE | CONTROL.

#[global] Instance ProblemPermissionType_eq_dec : EqDecision ProblemPermissionType.
Proof. solve_decision. Defined.

Definition Locale := string.

(** [ProblemEntity]: the columns [getProblemDetail] copies into [meta]. *)
Record ProblemEntity := mkProblemEntity {
  problem_id : Z;
  problem_displayId : Z;
  problem_type : string;
  problem_isPublic : bool;
  problem_ownerId : Z;
  problem_locales : list Locale
}.

#[global] Instance ProblemEntity_eq_dec : EqDecision ProblemEntity.
Proof. solve_decision. Defined.

(** [ProblemContentSectionDto] (problem-content-section.dto.ts). *)
Inductive ProblemContentSectionType := TEXT | SAMPLE.

Record ProblemContentSectionDto := mkProblemContentSectionDto {
  sectionTitle : string;
  section_type : ProblemContentSectionType;
  sampleId : option Z;
  section_text : option string
}.

(** ** Promises *)

(** How an awaited promise settles. *)
Inductive Completion (E A : Type) :=
| Fulfilled (a : A)
| Rejected (e : E).
Arguments Fulfilled {E A} a.
Arguments Rejected {E A} e.

(** ** The collaborators

    What the two files call but do not define.  [Platform] holds the types
    they leave open: what a rejected promise carries ([exn]), the [World]
    the collaborators read and write (database rows, sessions, the effect
    of requests running in between), and the entities and DTOs declared
    elsewhere.  [Deps] holds the operations: each one reads and writes the
    world and settles like a promise; the built-ins are pure functions. *)
Class Platform := {
  exn : Type;
  World : Type;
  UserAuth : Type;
  GroupEntity : Type;
  UserPrivilegeType : Type;
  MANAGE_USER : UserPrivilegeType;
  ProblemStatement : Type;
  UpdateProblemStatementRequestBody : Type;
  ProblemSampleDataMemberDto : Type;
  ProblemJudgeInfo : Type
}.

Class Deps (Pl : Platform) := {
  (* JavaScript built-ins: parseInt, crypto's md5 hex digest, String methods *)
  parseInt : string -> Z;
  md5_hex : string -> string;
  trim : string -> string;
  toLowerCase : string -> string;
  (* Repository<UserEntity> *)
  repo_findOne : Z -> World -> Completion exn (option UserEntity) * World;
  repo_findOne_username : string -> World -> Completion exn (option UserEntity) * World;
  repo_findByIds : list Z -> World -> Completion exn (list UserEntity) * World;
  repo_count_id : Z -> World -> Completion exn nat * World;
  repo_count_username : string -> World -> Completion exn nat * World;
  repo_count_email : string -> World -> Completion exn nat * World;
  repo_save : UserEntity -> World -> Completion exn unit * World;
  (* Connection: the query runner behind connection.transaction *)
  conn_startTransaction : IsolationLevel -> World -> Completion exn unit * World;
  conn_commitTransaction : World -> Completion exn unit * World;
  conn_rollbackTransaction : World -> Completion exn unit * World;
  tx_save : UserEntity -> World -> Completion exn unit * World;
  (* AuthService *)
  auth_findUserAuthByUserId : Z -> World -> Completion exn UserAuth * World;
  auth_changePassword : UserAuth -> string -> World -> Completion exn unit * World;
  (* UserPrivilegeService *)
  priv_userHasPrivilege :
    UserEntity -> UserPrivilegeType -> World -> Completion exn bool * World;
  (* ProblemService *)
  ps_findProblemById : Z -> World -> Completion exn (option ProblemEntity) * World;
  ps_findProblemByDisplayId : Z -> World -> Completion exn (option ProblemEntity) * World;
  ps_userHasPermission :
    option UserEntity -> ProblemPermissionType -> option ProblemEntity ->
    World -> Completion exn bool * World;
  ps_createProblem :
    option UserEntity -> string -> ProblemStatement ->
    World -> Completion exn (option ProblemEntity) * World;
  ps_updateProblemStatement :
    ProblemEntity -> Z -> UpdateProblemStatementRequestBody ->
    World -> Completion exn bool * World;
  ps_getProblemLocalizedTitle :
    ProblemEntity -> Locale -> World -> Completion exn (Locale * string) * World;
  ps_getProblemLocalizedContent :
    ProblemEntity -> Locale ->
    World -> Completion exn (Locale * list ProblemContentSectionDto) * World;
  ps_getProblemSamples :
    ProblemEntity -> World -> Completion exn (list ProblemSampleDataMemberDto) * World;
  ps_getProblemJudgeInfo : ProblemEntity -> World -> Completion exn ProblemJudgeInfo * World;
  ps_setProblemPermissions :
    ProblemEntity -> ProblemPermissionType -> list UserEntity -> list GroupEntity ->
    World -> Completion exn unit * World;
  (* GroupService *)
  gs_findGroupById : Z -> World -> Completion exn (option GroupEntity) * World
}.

(** ** The request monad *)

Section Machine.
Context {Pl : Platform}.

(** A call to a collaborator, with its arguments. *)
Inductive Call :=
| Repo_findOne (id : Z)
| Repo_findOne_username (username : string)
| Repo_findByIds (ids : list Z)
| Repo_count_id (id : Z)
| Repo_count_username (username : string)
| Repo_count_email (email : string)
| Repo_save (user : UserEntity)
| Conn_startTransaction (isolation : IsolationLevel)
| Conn_commitTransaction
| Conn_rollbackTransaction
| Tx_save (user : UserEntity)
| Auth_findUserAuthByUserId (id : Z)
| Auth_changePassword (auth : UserAuth) (password : string)
| Priv_userHasPrivilege (user : UserEntity) (privilege : UserPrivilegeType)
| PS_findProblemById (id : Z)
| PS_findProblemByDisplayId (displayId : Z)
| PS_userHasPermission
    (user : option UserEntity) (type : ProblemPermissionType) (problem : option ProblemEntity)
| PS_createProblem (owner : option UserEntity) (type : string) (statement : ProblemStatement)
| PS_updateProblemStatement
    (problem : ProblemEntity) (problemId : Z) (body : UpdateProblemStatementRequestBody)
| PS_getProblemLocalizedTitle (problem : ProblemEntity) (locale : Locale)
| PS_getProblemLocalizedContent (problem : ProblemEntity) (locale : Locale)
| PS_getProblemSamples (problem : ProblemEntity)
| PS_getProblemJudgeInfo (problem : ProblemEntity)
| PS_setProblemPermissions
    (problem : ProblemEntity) (type : ProblemPermissionType)
    (users : list UserEntity) (groups : list GroupEntity)
| GS_findGroupById (id : Z).

(** What came back, as far as the control flow of the callers looks at it. *)
Inductive Reply :=
| Done
| Answered (b : bool)
| Found
| Missing
| Threw (e : exn).

Record Event := Ev { ev_call : Call; ev_reply : Reply }.

Definition done {A} (_ : A) : Reply := Done.
Definition answered (b : bool) : Reply := Answered b.
Definition found {A} (o : option A) : Reply :=
  match o with Some _ => Found | None => Missing end.

(** The state of one request: the objects it holds references to ([frame]),
    the outside world, and the calls made so far, oldest first. *)
Record Machine (L : Type) := mkMachine {
  frame : L;
  world : World;
  trace : list Event
}.
Arguments mkMachine {L} _ _ _.
Arguments frame {L} _.
Arguments world {L} _.
Arguments trace {L} _.

Definition boot {L} (l : L) (w : World) : Machine L := mkMachine l w [].

Definition Async (L A : Type) : Type := Machine L -> Completion exn A * Machine L.

Definition ret {L A} (a : A) : Async L A := fun m => (Fulfilled a, m).

Definition throw {L A} (e : exn) : Async L A := fun m => (Rejected e, m).

Definition bind {L A B} (c : Async L A) (k : A -> Async L B) : Async L B :=
  fun m =>
    match c m with
    | (Fulfilled a, m') => k a m'
    | (Rejected e, m') => (Rejected e, m')
    end.

(** [try { body } catch (e) { handler e }] *)
Definition tryCatch {L A} (body : Async L A) (handler : exn -> Async L A) : Async L A :=
  fun m =>
    match body m with
    | (Fulfilled a, m') => (Fulfilled a, m')
    | (Rejected e, m') => handler e m'
    end.

(** [await collaborator.op(args)]: run the operation on the world, log the call. *)
Definition perform {L A} (c : Call) (digest : A -> Reply)
    (op : World -> Completion exn A * World) : Async L A :=
  fun m =>
    match op (world m) with
    | (Fulfilled a, w') => (Fulfilled a, mkMachine (frame m) w' (trace m ++ [Ev c (digest a)]))
    | (Rejected e, w') => (Rejected e, mkMachine (frame m) w' (trace m ++ [Ev c (Threw e)]))
    end.

(** Reading and assigning through the reference held in the frame. *)
Definition deref {L} : Async L L := fun m => (Fulfilled (frame m), m).

Definition assign {L} (f : L -> L) : Async L unit :=
  fun m => (Fulfilled tt, mkMachine (f (frame m)) (world m) (trace m)).

End Machine.

Arguments mkMachine {Pl L} _ _ _.
Arguments frame {Pl L} _.
Arguments world {Pl L} _.
Arguments trace {Pl L} _.

(** [const x = await c; k] and [await c; k] *)
Notation "'await' x <- c ; k" := (bind c (fun x => k))
  (at level 10, x name, c at level 100, k at level 200, only parsing).
Notation "'await' ' p <- c ; k" := (bind c (fun x => match x with p => k end))
  (at level 10, p pattern, c at level 100, k at level 200, only parsing).
Notation "'await_' c ; k" := (bind c (fun _ => k))
  (at level 10, c at level 100, k at level 200, only parsing).

(** ** src/user/user.service.ts *)

Section UserService.
Context {Pl : Platform} {D : Deps Pl}.

(** *** The injected collaborators, as the service calls them *)

Definition userRepository_findOne {L} (id : Z) : Async L (option UserEntity) :=
  perform (Repo_findOne id) found (repo_findOne id).

Definition userRepository_findOne_username {L} (username : string)
    : Async L (option UserEntity) :=
  perform (Repo_findOne_username username) found (repo_findOne_username username).

Definition userRepository_findByIds {L} (ids : list Z) : Async L (list UserEntity) :=
  perform (Repo_findByIds ids) done (repo_findByIds ids).

Definition userRepository_count_id {L} (id : Z) : Async L nat :=
  perform (Repo_count_id id) done (repo_count_id id).

Definition userRepository_count_username {L} (username : string) : Async L nat :=
  perform (Repo_count_username username) done (repo_count_username username).

Definition userRepository_count_email {L} (email : string) : Async L nat :=
  perform (Repo_count_email email) done (repo_count_email email).

Definition userRepository_save {L} (user : UserEntity) : Async L unit :=
  perform (Repo_save user) done (repo_save user).

Definition authService_findUserAuthByUserId {L} (id : Z) : Async L UserAuth :=
  perform (Auth_findUserAuthByUserId id) done (auth_findUserAuthByUserId id).

Definition authService_changePassword {L} (auth : UserAuth) (password : string)
    : Async L unit :=
  perform (Auth_changePassword auth password) done (auth_changePassword auth password).

Definition userPrivilegeService_userHasPrivilege {L}
    (user : UserEntity) (privilege : UserPrivilegeType) : Async L bool :=
  perform (Priv_userHasPrivilege user privilege) answered
    (priv_userHasPrivilege user privilege).

(** The entity manager a transaction hands to its callback. *)
Record EntityManager (L : Type) := mkEntityManager {
  manager_save : UserEntity -> Async L unit
}.
Arguments manager_save {L} _ _.

Definition transactionalEntityManager {L} : EntityManager L :=
  mkEntityManager L (fun user => perform (Tx_save user) done (tx_save user)).

(** TypeORM's [connection.transaction(isolation, runInTransaction)]: start,
    run the callback, commit; on any rejection roll back (a failure of the
    rollback itself is dropped) and reject with the same error. *)
Definition connection_transaction {L A} (isolation : IsolationLevel)
    (runInTransaction : EntityManager L -> Async L A) : Async L A :=
  tryCatch
    (await_ perform (Conn_startTransaction isolation) done (conn_startTransaction isolation);
     await result <- runInTransaction transactionalEntityManager;
     await_ perform Conn_commitTransaction done conn_commitTransaction;
     ret result)
    (fun err =>
       await_ tryCatch
         (perform Conn_rollbackTransaction done conn_rollbackTransaction)
         (fun _ => ret tt);
       throw err).

(** *** JavaScript containers *)

(** [new Set(xs)] keeps each value once, in order of first insertion. *)
Fixpoint set_add_all (seen : list Z) (xs : list Z) : list Z :=
  match xs with
  | [] => seen
  | x :: rest =>
      if decide (x ∈ seen) then set_add_all seen rest
      else set_add_all (seen ++ [x]) rest
  end.

(** [Array.from(new Set(xs))] *)
Definition array_from_set (xs : list Z) : list Z := set_add_all [] xs.

(** [Object.fromEntries(entries)]: a later entry overwrites an earlier one
    with the same key.  Keys are numeric ids here, and [map[userId]] reads
    the own property of that id. *)
Definition object_fromEntries {V} (entries : list (Z * V)) : gmap Z V :=
  foldl (fun o e => <[e.1 := e.2]> o) ∅ entries.

(** *** The methods *)

Definition findUserById {L} (id : Z) : Async L (option UserEntity) :=
  userRepository_findOne id.

Definition findUsersByExistingIds {L} (userIds : list Z)
    : Async L (list (option UserEntity)) :=
  if decide (length userIds = 0%nat) then ret []
  else
    let uniqueIds := array_from_set userIds in
    await records <- userRepository_findByIds uniqueIds;
    let map := object_fromEntries ((fun record => (user_id record, record)) <$> records) in
    ret ((fun userId => map !! userId) <$> userIds).

Definition findUserByUsername {L} (username : string) : Async L (option UserEntity) :=
  userRepository_findOne_username username.

Definition getUserMeta {L} (user : UserEntity) (currentUser : option UserEntity)
    : Async L UserMetaDto :=
  let hash := md5_hex (toLowerCase (trim (user_email user))) in
  await showEmail <-
    (if user_publicEmail user then ret true
     else match currentUser with
          | None => ret false
          | Some currentUser =>
              if decide (user_id currentUser = user_id user) then ret true
              else userPrivilegeService_userHasPrivilege currentUser MANAGE_USER
          end);
  ret {| meta_id := user_id user;
         meta_username := user_username user;
         meta_email := if showEmail then Some (user_email user) else None;
         meta_gravatarEmailHash := hash;
         meta_bio := user_bio user;
         meta_sexIsFamale := user_sexIsFamale user;
         meta_organization := user_organization user;
         meta_location := user_location user;
         meta_isAdmin := user_isAdmin user;
         meta_acceptedProblemCount := user_acceptedProblemCount user;
         meta_submissionCount := user_submissionCount user;
         meta_rating := user_rating user;
         meta_registrationTime := user_registrationTime user |}.

Definition userExists {L} (id : Z) : Async L bool :=
  await n <- userRepository_count_id id;
  ret (negb (Nat.eqb n 0)).

Definition checkUsernameAvailability {L} (username : string) : Async L bool :=
  await n <- userRepository_count_username username;
  ret (Nat.eqb n 0).

Definition checkEmailAvailability {L} (email : string) : Async L bool :=
  await n <- userRepository_count_email email;
  ret (Nat.eqb n 0).

(** [updateUserProfile(user, username, email, publicEmail, password,
    information)].  The entity object [user] is the machine's frame: caller
    and callee hold the same reference, so what the method assigns is what
    the caller sees afterwards.  A [null] argument is [None]. *)

(** Lines 116-130, the body of [try]. *)
Definition updateUserProfile_try
    (username email : option string) (publicEmail : bool) (password : option string)
    (information : UserInformation) : Async UserEntity unit :=
  await_ (match username with Some v => assign (set_username v) | None => ret tt end);
  await_ (match email with Some v => assign (set_email v) | None => ret tt end);
  await_ assign (set_publicEmail publicEmail);
  await_ assign (set_bio (info_bio information));
  await_ assign (set_sexIsFamale (info_sexIsFamale information));
  await_ assign (set_organization (info_organization information));
  await_ assign (set_location (info_location information));
  match password with
  | None =>
      await user <- deref;
      userRepository_save user
  | Some password =>
      connection_transaction READ_COMMITTED (fun transactionalEntityManager =>
        await user <- deref;
        await auth <- authService_findUserAuthByUserId (user_id user);
        await_ authService_changePassword auth password;
        await user <- deref;
        manager_save transactionalEntityManager user)
  end.

(** Lines 131-139, the body of [catch (e)]. *)
Definition updateUserProfile_catch (username email : option string) (e : exn)
    : Async UserEntity (option UpdateUserProfileResponseError) :=
  await usernameTaken <-
    (match username with
     | Some v => await available <- checkUsernameAvailability v; ret (negb available)
     | None => ret false
     end);
  if usernameTaken : bool then ret (Some DUPLICATE_USERNAME)
  else
    await emailTaken <-
      (match email with
       | Some v => await available <- checkEmailAvailability v; ret (negb available)
       | None => ret false
       end);
    if emailTaken : bool then ret (Some DUPLICATE_EMAIL)
    else throw e.

(** The whole method; [return null] is reached when the [try] body completes. *)
Definition updateUserProfile
    (username email : option string) (publicEmail : bool) (password : option string)
    (information : UserInformation)
    : Async UserEntity (option UpdateUserProfileResponseError) :=
  tryCatch
    (await_ updateUserProfile_try username email publicEmail password information;
     ret None)
    (updateUserProfile_catch username email).

End UserService.

(** ** src/problem/dto *)

Module CreateProblemResponseError.
Inductive t := PERMISSION_DENIED | FAILED.
End CreateProblemResponseError.

Module UpdateProblemStatementResponseError.
Inductive t := NO_SUCH_PROBLEM | PERMISSION_DENIED | FAILED.
End UpdateProblemStatementResponseError.

(** get-problem-detail-response.dto.ts, lines 10-13. *)
Module GetProblemDetailResponseError.
Inductive t := PERMISSION_DENIED | NO_SUCH_PROBLEM.
End GetProblemDetailResponseError.

Module SetProblemPermissionsResponseError.
Inductive t := NO_SUCH_PROBLEM | PERMISSION_DENIED | NO_SUCH_USER | NO_SUCH_GROUP.
End SetProblemPermissionsResponseError.

Record ProblemMetaDto := mkProblemMetaDto {
  pm_id : Z;
  pm_displayId : Z;
  pm_type : string;
  pm_isPublic : bool;
  pm_ownerId : Z;
  pm_locales : list Locale
}.

Record CreateProblemResponseDto := mkCreateProblemResponseDto {
  cp_error : option CreateProblemResponseError.t;
  cp_id : option Z
}.

Record UpdateProblemStatementResponseDto := mkUpdateProblemStatementResponseDto {
  ups_error : option UpdateProblemStatementResponseError.t
}.

Record GetProblemDetailRequestDto := mkGetProblemDetailRequestDto {
  gpd_id : option string;
  gpd_displayId : option string;
  gpd_locale : Locale
}.

Record SetProblemPermissionsRequestDto := mkSetProblemPermissionsRequestDto {
  spp_problemId : Z;
  spp_permissionType : ProblemPermissionType;
  spp_userIds : list Z;
  spp_groupIds : list Z
}.

Record SetProblemPermissionsResponseDto := mkSetProblemPermissionsResponseDto {
  spp_error : option SetProblemPermissionsResponseError.t;
  spp_errorObjectId : option Z
}.

Section ProblemDto.
Context {Pl : Platform}.

Record CreateProblemRequestDto := mkCreateProblemRequestDto {
  cpr_type : string;
  cpr_statement : ProblemStatement
}.

Record UpdateProblemStatementRequestDto := mkUpdateProblemStatementRequestDto {
  upr_problemId : Z;
  upr_body : UpdateProblemStatementRequestBody
}.

(** The properties a response of [getProblemDetail] can carry: those the
    controller's object literals set ([error], [meta], [title],
    [titleLocale], [samples], [contentSections], [contentLocale],
    [judgeInfo]) and [resultLocale], which the class
    [GetProblemDetailResponseDto] declares and no literal sets. *)
Record GetProblemDetailResponseDto := mkGetProblemDetailResponseDto {
  gp_error : option GetProblemDetailResponseError.t;
  gp_meta : option ProblemMetaDto;
  gp_title : option string;
  gp_titleLocale : option Locale;
  gp_resultLocale : option Locale;
  gp_samples : option (list ProblemSampleDataMemberDto);
  gp_contentSections : option (list ProblemContentSectionDto);
  gp_contentLocale : option Locale;
  gp_judgeInfo : option ProblemJudgeInfo
}.

Definition getProblemDetail_error (e : GetProblemDetailResponseError.t)
    : GetProblemDetailResponseDto :=
  mkGetProblemDetailResponseDto (Some e) None None None None None None None None.

End ProblemDto.

(** ** src/problem/problem.controller.ts *)

Section ProblemController.
Context {Pl : Platform} {D : Deps Pl}.

(** *** The injected services, as the controller calls them *)

Definition problemService_findProblemById {L} (id : Z) : Async L (option ProblemEntity) :=
  perform (PS_findProblemById id) found (ps_findProblemById id).

Definition problemService_findProblemByDisplayId {L} (displayId : Z)
    : Async L (option ProblemEntity) :=
  perform (PS_findProblemByDisplayId displayId) found (ps_findProblemByDisplayId displayId).

Definition problemService_userHasPermission {L} (user : option UserEntity)
    (type : ProblemPermissionType) (problem : option ProblemEntity) : Async L bool :=
  perform (PS_userHasPermission user type problem) answered
    (ps_userHasPermission user type problem).

Definition problemService_createProblem {L} (owner : option UserEntity) (type : string)
    (statement : ProblemStatement) : Async L (option ProblemEntity) :=
  perform (PS_createProblem owner type statement) found
    (ps_createProblem owner type statement).

Definition problemService_updateProblemStatement {L} (problem : ProblemEntity)
    (request : UpdateProblemStatementRequestDto) : Async L bool :=
  perform (PS_updateProblemStatement problem (upr_problemId request) (upr_body request))
    answered
    (ps_updateProblemStatement problem (upr_problemId request) (upr_body request)).

Definition problemService_getProblemLocalizedTitle {L} (problem : ProblemEntity)
    (locale : Locale) : Async L (Locale * string) :=
  perform (PS_getProblemLocalizedTitle problem locale) done
    (ps_getProblemLocalizedTitle problem locale).

Definition problemService_getProblemLocalizedContent {L} (problem : ProblemEntity)
    (locale : Locale) : Async L (Locale * list ProblemContentSectionDto) :=
  perform (PS_getProblemLocalizedContent problem locale) done
    (ps_getProblemLocalizedContent problem locale).

Definition problemService_getProblemSamples {L} (problem : ProblemEntity)
    : Async L (list ProblemSampleDataMemberDto) :=
  perform (PS_getProblemSamples problem) done (ps_getProblemSamples problem).

Definition problemService_getProblemJudgeInfo {L} (problem : ProblemEntity)
    : Async L ProblemJudgeInfo :=
  perform (PS_getProblemJudgeInfo problem) done (ps_getProblemJudgeInfo problem).

Definition problemService_setProblemPermissions {L} (problem : ProblemEntity)
    (type : ProblemPermissionType) (users : list UserEntity) (groups : list GroupEntity)
    : Async L unit :=
  perform (PS_setProblemPermissions problem type users groups) done
    (ps_setProblemPermissions problem type users groups).

Definition groupService_findGroupById {L} (id : Z) : Async L (option GroupEntity) :=
  perform (GS_findGroupById id) found (gs_findGroupById id).

(** [if (s)] on an optional string: absent and empty are falsy. *)
Definition truthy (s : option string) : bool :=
  match s with
  | Some v => negb (String.eqb v "")
  | None => false
  end.

(** *** The endpoints *)

Definition create {L} (currentUser : option UserEntity) (request : CreateProblemRequestDto)
    : Async L CreateProblemResponseDto :=
  await allowed <- problemService_userHasPermission currentUser CREATE None;
  if negb allowed
  then ret (mkCreateProblemResponseDto (Some CreateProblemResponseError.PERMISSION_DENIED) None)
  else
    await problem <-
      problemService_createProblem currentUser (cpr_type request) (cpr_statement request);
    match problem with
    | None => ret (mkCreateProblemResponseDto (Some CreateProblemResponseError.FAILED) None)
    | Some problem => ret (mkCreateProblemResponseDto None (Some (problem_id problem)))
    end.

Definition updateStatement {L} (currentUser : option UserEntity)
    (request : UpdateProblemStatementRequestDto) : Async L UpdateProblemStatementResponseDto :=
  await problem <- problemService_findProblemById (upr_problemId request);
  match problem with
  | None =>
      ret (mkUpdateProblemStatementResponseDto
             (Some UpdateProblemStatementResponseError.NO_SUCH_PROBLEM))
  | Some problem =>
      await allowed <- problemService_userHasPermission currentUser WRITE (Some problem);
      if negb allowed
      then ret (mkUpdateProblemStatementResponseDto
                  (Some UpdateProblemStatementResponseError.PERMISSION_DENIED))
      else
        await success <- problemService_updateProblemStatement problem request;
        if negb success
        then ret (mkUpdateProblemStatementResponseDto
                    (Some UpdateProblemStatementResponseError.FAILED))
        else ret (mkUpdateProblemStatementResponseDto None)
  end.

Definition getProblemDetail {L} (currentUser : option UserEntity)
    (request : GetProblemDetailRequestDto) : Async L GetProblemDetailResponseDto :=
  await problem <-
    (if truthy (gpd_id request)
     then problemService_findProblemById (parseInt (default "" (gpd_id request)))
     else if truthy (gpd_displayId request)
     then problemService_findProblemByDisplayId (parseInt (default "" (gpd_displayId request)))
     else ret None);
  match problem with
  | None => ret (getProblemDetail_error GetProblemDetailResponseError.NO_SUCH_PROBLEM)
  | Some problem =>
      await allowed <- problemService_userHasPermission currentUser READ (Some problem);
      if negb allowed
      then ret (getProblemDetail_error GetProblemDetailResponseError.PERMISSION_DENIED)
      else
        await '(titleLocale, title) <-
          problemService_getProblemLocalizedTitle problem (gpd_locale request);
        await '(contentLocale, contentSections) <-
          problemService_getProblemLocalizedContent problem (gpd_locale request);
        await samples <- problemService_getProblemSamples problem;
        await judgeInfo <- problemService_getProblemJudgeInfo problem;
        ret {| gp_error := None;
               gp_meta := Some {| pm_id := problem_id problem;
                                  pm_displayId := problem_displayId problem;
                                  pm_type := problem_type problem;
                                  pm_isPublic := problem_isPublic problem;
                                  pm_ownerId := problem_ownerId problem;
                                  pm_locales := problem_locales problem |};
               gp_title := Some title;
               gp_titleLocale := Some titleLocale;
               gp_resultLocale := None;
               gp_samples := Some samples;
               gp_contentSections := Some contentSections;
               gp_contentLocale := Some contentLocale;
               gp_judgeInfo := Some judgeInfo |}
  end.

(** Lines 211-221: [inl] is the early [return], [inr] the array [users]. *)
Fixpoint resolveUsers {L} (userIds : list Z) (users : list UserEntity)
    : Async L (SetProblemPermissionsResponseDto + list UserEntity) :=
  match userIds with
  | [] => ret (inr users)
  | userId :: rest =>
      await user <- findUserById userId;
      match user with
      | None =>
          ret (inl (mkSetProblemPermissionsResponseDto
                      (Some SetProblemPermissionsResponseError.NO_SUCH_USER) (Some userId)))
      | Some user => resolveUsers rest (users ++ [user])
      end
  end.

(** Lines 223-233. *)
Fixpoint resolveGroups {L} (groupIds : list Z) (groups : list GroupEntity)
    : Async L (SetProblemPermissionsResponseDto + list GroupEntity) :=
  match groupIds with
  | [] => ret (inr groups)
  | groupId :: rest =>
      await group <- groupService_findGroupById groupId;
      match group with
      | None =>
          ret (inl (mkSetProblemPermissionsResponseDto
                      (Some SetProblemPermissionsResponseError.NO_SUCH_GROUP) (Some groupId)))
      | Some group => resolveGroups rest (groups ++ [group])
      end
  end.

Definition setProblemPermissions {L} (currentUser : option UserEntity)
    (request : SetProblemPermissionsRequestDto) : Async L SetProblemPermissionsResponseDto :=
  await problem <- problemService_findProblemById (spp_problemId request);
  match problem with
  | None =>
      ret (mkSetProblemPermissionsResponseDto
             (Some SetProblemPermissionsResponseError.NO_SUCH_PROBLEM)
             (Some (spp_problemId request)))
  | Some problem =>
      await allowed <- problemService_userHasPermission currentUser CONTROL (Some problem);
      if negb allowed
      then ret (mkSetProblemPermissionsResponseDto
                  (Some SetProblemPermissionsResponseError.PERMISSION_DENIED) None)
      else
        await users <- resolveUsers (spp_userIds request) [];
        match users with
        | inl response => ret response
        | inr users =>
            await groups <- resolveGroups (spp_groupIds request) [];
            match groups with
            | inl response => ret response
            | inr groups =>
                await_ problemService_setProblemPermissions problem
                         (spp_permissionType request) users groups;
                ret (mkSetProblemPermissionsResponseDto None None)
            end
        end
  end.

End ProblemController.

(** ** An in-memory implementation of the collaborators

    A small database with unique usernames and emails, transactions over the
    user table, the spec's permission resolver and locale resolver.  It
    serves to run the embedded methods on concrete requests; the general
    theorems do not depend on it. *)

Module Testbed.

Inductive Principal := UserPrincipal (id : Z) | GroupPrincipal (id : Z).

Record Grant := mkGrant {
  grant_problemId : Z;
  grant_principal : Principal;
  grant_level : ProblemPermissionType
}.

Definition VariantMap (A : Type) := list (Locale * A).

Record Statement := mkStatement {
  st_titles : VariantMap string;
  st_contents : VariantMap (list ProblemContentSectionDto)
}.

Record StoredProblem := mkStoredProblem {
  sp_entity : ProblemEntity;
  sp_statement : Statement
}.

(** Rows of the user tables.  [id_staged] holds the user rows as an open
    transaction sees them; [id_offline] makes every write fail. *)
Record Identity := mkIdentity {
  id_users : list UserEntity;
  id_passwords : list (Z * string);
  id_privileges : list (Z * string);
  id_staged : option (list UserEntity);
  id_offline : bool
}.

Record Catalogue := mkCatalogue {
  cat_problems : list StoredProblem;
  cat_groups : list Z;
  cat_memberships : list (Z * Z);
  cat_grants : list Grant
}.

Record DB := mkDB { identity : Identity; catalogue : Catalogue }.

Definition Ext (A : Type) : Type := DB -> Completion string A * DB.

Definition with_users (rows : list UserEntity) (i : Identity) : Identity :=
  mkIdentity rows (id_passwords i) (id_privileges i) (id_staged i) (id_offline i).

Definition with_passwords (rows : list (Z * string)) (i : Identity) : Identity :=
  mkIdentity (id_users i) rows (id_privileges i) (id_staged i) (id_offline i).

Definition with_staged (rows : option (list UserEntity)) (i : Identity) : Identity :=
  mkIdentity (id_users i) (id_passwords i) (id_privileges i) rows (id_offline i).

Definition on_identity (f : Identity -> Identity) (w : DB) : DB :=
  mkDB (f (identity w)) (catalogue w).

Definition on_catalogue (f : Catalogue -> Catalogue) (w : DB) : DB :=
  mkDB (identity w) (f (catalogue w)).

(** *** User rows *)

Definition count_where (p : UserEntity -> bool) (rows : list UserEntity) : nat :=
  length (List.filter p rows).

Definition find_user (id : Z) (rows : list UserEntity) : option UserEntity :=
  List.find (fun r => Z.eqb (user_id r) id) rows.

(** Another row already holds the username or the email of [u]. *)
Definition conflicts (u : UserEntity) (rows : list UserEntity) : bool :=
  existsb (fun r => negb (Z.eqb (user_id r) (user_id u)) &&
                    (String.eqb (user_username r) (user_username u) ||
                     String.eqb (user_email r) (user_email u))) rows.

Definition upsert (u : UserEntity) (rows : list UserEntity) : list UserEntity :=
  if existsb (fun r => Z.eqb (user_id r) (user_id u)) rows
  then List.map (fun r => if Z.eqb (user_id r) (user_id u) then u else r) rows
  else rows ++ [u].

Definition write_row (u : UserEntity) (offline : bool) (rows : list UserEntity)
    : Completion string (list UserEntity) :=
  if offline then Rejected "ECONNRESET"
  else if conflicts u rows then Rejected "ER_DUP_ENTRY"
  else Fulfilled (upsert u rows).

Definition t_findOne (id : Z) : Ext (option UserEntity) :=
  fun w => (Fulfilled (find_user id (id_users (identity w))), w).

Definition t_findOne_username (username : string) : Ext (option UserEntity) :=
  fun w => (Fulfilled (List.find (fun r => String.eqb (user_username r) username)
                         (id_users (identity w))), w).

Definition t_findByIds (ids : list Z) : Ext (list UserEntity) :=
  fun w => (Fulfilled (List.filter (fun r => existsb (Z.eqb (user_id r)) ids)
                         (id_users (identity w))), w).

Definition t_count_id (id : Z) : Ext nat :=
  fun w => (Fulfilled (count_where (fun r => Z.eqb (user_id r) id) (id_users (identity w))), w).

Definition t_count_username (username : string) : Ext nat :=
  fun w => (Fulfilled (count_where (fun r => String.eqb (user_username r) username)
                         (id_users (identity w))), w).

Definition t_count_email (email : string) : Ext nat :=
  fun w => (Fulfilled (count_where (fun r => String.eqb (user_email r) email)
                         (id_users (identity w))), w).

Definition t_save (u : UserEntity) : Ext unit :=
  fun w =>
    match write_row u (id_offline (identity w)) (id_users (identity w)) with
    | Fulfilled rows => (Fulfilled tt, on_identity (with_users rows) w)
    | Rejected e => (Rejected e, w)
    end.

(** *** Transactions over the user table *)

Definition t_startTransaction (_ : IsolationLevel) : Ext unit :=
  fun w => (Fulfilled tt, on_identity (with_staged (Some (id_users (identity w)))) w).

Definition t_tx_save (u : UserEntity) : Ext unit :=
  fun w =>
    match id_staged (identity w) with
    | None => (Rejected "TransactionNotStartedError", w)
    | Some staged =>
        match write_row u (id_offline (identity w)) staged with
        | Fulfilled rows => (Fulfilled tt, on_identity (with_staged (Some rows)) w)
        | Rejected e => (Rejected e, w)
        end
    end.

Definition t_commitTransaction : Ext unit :=
  fun w =>
    match id_staged (identity w) with
    | None => (Rejected "TransactionNotStartedError", w)
    | Some staged =>
        if id_offline (identity w) then (Rejected "ECONNRESET", w)
        else (Fulfilled tt, on_identity (fun i => with_staged None (with_users staged i)) w)
    end.

Definition t_rollbackTransaction : Ext unit :=
  fun w =>
    match id_staged (identity w) with
    | None => (Rejected "TransactionNotStartedError", w)
    | Some _ => (Fulfilled tt, on_identity (with_staged None) w)
    end.

(** *** Credentials and privileges *)

Definition t_findUserAuthByUserId (id : Z) : Ext (option Z) :=
  fun w => (Fulfilled (fst <$> List.find (fun r => Z.eqb (fst r) id)
                                 (id_passwords (identity w))), w).

(** Modelled from the spec: the credential service of section 6
    ([rotateCredential], external to the core).  It is handed the
    credentials and the new password and nothing of the open transaction:
    it writes through a repository of its own, and a changed password is
    stored at once. *)
Definition t_changePassword (auth : option Z) (password : string) : Ext unit :=
  fun w =>
    match auth with
    | None => (Rejected "TypeError", w)
    | Some uid =>
        if id_offline (identity w) then (Rejected "ECONNRESET", w)
        else (Fulfilled tt,
              on_identity (with_passwords
                ((uid, password) ::
                 List.filter (fun r => negb (Z.eqb (fst r) uid)) (id_passwords (identity w)))) w)
    end.

Definition holds_privilege (id : Z) (privilege : string) (rows : list (Z * string)) : bool :=
  existsb (fun r => Z.eqb (fst r) id && String.eqb (snd r) privilege) rows.

Definition t_userHasPrivilege (u : UserEntity) (privilege : string) : Ext bool :=
  fun w => (Fulfilled (user_isAdmin u ||
                       holds_privilege (user_id u) privilege (id_privileges (identity w))), w).

(** *** Problems, grants, localized variants *)

Definition level_rank (t : ProblemPermissionType) : nat :=
  match t with CREATE => 0 | READ => 1 | WRITE => 2 | CONTROL => 3 end.

Definition principal_eqb (a b : Principal) : bool :=
  match a, b with
  | UserPrincipal x, UserPrincipal y => Z.eqb x y
  | GroupPrincipal x, GroupPrincipal y => Z.eqb x y
  | _, _ => false
  end.

Definition granted (problemId : Z) (who : Principal) (t : ProblemPermissionType)
    (grants : list Grant) : bool :=
  existsb (fun g => Z.eqb (grant_problemId g) problemId &&
                    principal_eqb (grant_principal g) who &&
                    Nat.leb (level_rank t) (level_rank (grant_level g))) grants.

(** Modelled from the spec: the Permission Resolver of section 4.1
    ([ProblemService.userHasPermission] is not among the sources).  CREATE needs
    no resource: admin, or the global create privilege.  The other levels
    need one (its absence is a programming error and rejects): admin, owner,
    public READ, a direct grant of at least the level, a grant of at least
    the level to a group of the actor, in this order. *)
Definition t_userHasPermission (user : option UserEntity) (t : ProblemPermissionType)
    (problem : option ProblemEntity) : Ext bool :=
  fun w =>
    match t, problem with
    | CREATE, _ =>
        (Fulfilled
           match user with
           | None => false
           | Some u => user_isAdmin u ||
                       holds_privilege (user_id u) "CREATE_PROBLEM"
                         (id_privileges (identity w))
           end, w)
    | _, None => (Rejected "TypeError", w)
    | _, Some p =>
        (Fulfilled
           (match user with
            | None => false
            | Some u => user_isAdmin u || Z.eqb (user_id u) (problem_ownerId p)
            end
            || (Nat.eqb (level_rank t) (level_rank READ) && problem_isPublic p)
            || match user with
               | None => false
               | Some u =>
                   granted (problem_id p) (UserPrincipal (user_id u)) t
                     (cat_grants (catalogue w))
                   || existsb (fun gm =>
                        Z.eqb (snd gm) (user_id u) &&
                        granted (problem_id p) (GroupPrincipal (fst gm)) t
                          (cat_grants (catalogue w)))
                        (cat_memberships (catalogue w))
               end), w)
    end.

(** Modelled from the spec: [setPermissions] of section 4.1
    ([ProblemService.setProblemPermissions] is not among the sources): the
    grants of the resource at exactly this level are replaced by the given
    principals. *)
Definition t_setProblemPermissions (p : ProblemEntity) (t : ProblemPermissionType)
    (users : list UserEntity) (groups : list Z) : Ext unit :=
  fun w =>
    (Fulfilled tt,
     on_catalogue (fun c =>
       mkCatalogue (cat_problems c) (cat_groups c) (cat_memberships c)
         (List.filter (fun g => negb (Z.eqb (grant_problemId g) (problem_id p) &&
                                      Nat.eqb (level_rank (grant_level g)) (level_rank t)))
            (cat_grants c)
          ++ List.map (fun u => mkGrant (problem_id p) (UserPrincipal (user_id u)) t) users
          ++ List.map (fun g => mkGrant (problem_id p) (GroupPrincipal g) t) groups)) w).

(** Modelled from the spec: the Localized Content Resolver of section 4.2
    ([ProblemService.getProblemLocalizedTitle] and [getProblemLocalizedContent]
    are not among the sources): the requested locale when the map has it,
    else the locale inserted first; an empty map is [EmptyVariantSet]. *)
Definition resolve {A} (variants : VariantMap A) (requested : Locale)
    : Completion string (Locale * A) :=
  match List.find (fun v => String.eqb (fst v) requested) variants with
  | Some v => Fulfilled v
  | None =>
      match variants with
      | v :: _ => Fulfilled v
      | [] => Rejected "EmptyVariantSet"
      end
  end.

Definition find_problem (f : ProblemEntity -> Z) (key : Z) (w : DB) : option StoredProblem :=
  List.find (fun s => Z.eqb (f (sp_entity s)) key) (cat_problems (catalogue w)).

Definition t_findProblemById (id : Z) : Ext (option ProblemEntity) :=
  fun w => (Fulfilled (sp_entity <$> find_problem problem_id id w), w).

Definition t_findProblemByDisplayId (displayId : Z) : Ext (option ProblemEntity) :=
  fun w => (Fulfilled (sp_entity <$> find_problem problem_displayId displayId w), w).

Definition statement_of (p : ProblemEntity) (w : DB) : Statement :=
  match find_problem problem_id (problem_id p) w with
  | Some s => sp_statement s
  | None => mkStatement [] []
  end.

Definition t_getProblemLocalizedTitle (p : ProblemEntity) (locale : Locale)
    : Ext (Locale * string) :=
  fun w => (resolve (st_titles (statement_of p w)) locale, w).

Definition t_getProblemLocalizedContent (p : ProblemEntity) (locale : Locale)
    : Ext (Locale * list ProblemContentSectionDto) :=
  fun w => (resolve (st_contents (statement_of p w)) locale, w).

Definition t_createProblem (owner : option UserEntity) (type : string) (st : Statement)
    : Ext (option ProblemEntity) :=
  fun w =>
    match owner with
    | None => (Fulfilled None, w)
    | Some u =>
        let n := Z.of_nat (S (length (cat_problems (catalogue w)))) in
        let p := mkProblemEntity n n type false (user_id u) (fst <$> st_titles st) in
        (Fulfilled (Some p),
         on_catalogue (fun c =>
           mkCatalogue (cat_problems c ++ [mkStoredProblem p st]) (cat_groups c)
             (cat_memberships c) (cat_grants c)) w)
    end.

Definition t_updateProblemStatement (p : ProblemEntity) (_ : Z) (st : Statement) : Ext bool :=
  fun w =>
    match find_problem problem_id (problem_id p) w with
    | None => (Fulfilled false, w)
    | Some _ =>
        (Fulfilled true,
         on_catalogue (fun c =>
           mkCatalogue
             (List.map (fun s => if Z.eqb (problem_id (sp_entity s)) (problem_id p)
                                 then mkStoredProblem (sp_entity s) st else s)
                (cat_problems c))
             (cat_groups c) (cat_memberships c) (cat_grants c)) w)
    end.

Definition t_getProblemSamples (_ : ProblemEntity) : Ext (list (string * string)) :=
  fun w => (Fulfilled [], w).

Definition t_getProblemJudgeInfo (_ : ProblemEntity) : Ext string :=
  fun w => (Fulfilled "default", w).

Definition t_findGroupById (id : Z) : Ext (option Z) :=
  fun w => (Fulfilled (List.find (Z.eqb id) (cat_groups (catalogue w))), w).

(** *** Built-ins, for ASCII text *)

Definition digit_of (c : ascii) : option Z :=
  let n := Z.of_nat (nat_of_ascii c) in
  if ((48 <=? n) && (n <=? 57))%Z then Some (n - 48) else None.

Fixpoint digits (acc : option Z) (s : string) : option Z :=
  match s with
  | EmptyString => acc
  | String c rest =>
      match digit_of c with
      | Some d => digits (Some (10 * default 0 acc + d)) rest
      | None => acc
      end
  end.

(** Leading decimal digits; text without any reads as [-1], which is no
    row's id (it stands for NaN). *)
Definition t_parseInt (s : string) : Z := default (-1) (digits None s).

Definition is_space (c : ascii) : bool :=
  let n := nat_of_ascii c in
  Nat.eqb n 32 || Nat.eqb n 9 || Nat.eqb n 10 || Nat.eqb n 13.

Fixpoint trim_start (s : string) : string :=
  match s with
  | String c rest => if is_space c then trim_start rest else s
  | EmptyString => EmptyString
  end.

Fixpoint trim_end (s : string) : string :=
  match s with
  | EmptyString => EmptyString
  | String c rest =>
      match trim_end rest with
      | EmptyString => if is_space c then EmptyString else String c EmptyString
      | rest' => String c rest'
      end
  end.

Definition t_trim (s : string) : string := trim_end (trim_start s).

Definition lower (c : ascii) : ascii :=
  let n := nat_of_ascii c in
  if Nat.leb 65 n && Nat.leb n 90 then ascii_of_nat (n + 32) else c.

Fixpoint t_toLowerCase (s : string) : string :=
  match s with
  | EmptyString => EmptyString
  | String c rest => String (lower c) (t_toLowerCase rest)
  end.

(** A stand-in for the digest: injective, and not MD5. *)
Definition t_md5_hex (s : string) : string := String.append "md5:" s.

#[global] Instance platform : Platform := {|
  exn := string;
  World := DB;
  UserAuth := option Z;
  GroupEntity := Z;
  UserPrivilegeType := string;
  MANAGE_USER := "MANAGE_USER";
  ProblemStatement := Statement;
  UpdateProblemStatementRequestBody := Statement;
  ProblemSampleDataMemberDto := string * string;
  ProblemJudgeInfo := string
|}.

#[global] Instance deps : Deps platform := {|
  parseInt := t_parseInt;
  md5_hex := t_md5_hex;
  trim := t_trim;
  toLowerCase := t_toLowerCase;
  repo_findOne := t_findOne;
  repo_findOne_username := t_findOne_username;
  repo_findByIds := t_findByIds;
  repo_count_id := t_count_id;
  repo_count_username := t_count_username;
  repo_count_email := t_count_email;
  repo_save := t_save;
  conn_startTransaction := t_startTransaction;
  conn_commitTransaction := t_commitTransaction;
  conn_rollbackTransaction := t_rollbackTransaction;
  tx_save := t_tx_save;
  auth_findUserAuthByUserId := t_findUserAuthByUserId;
  auth_changePassword := t_changePassword;
  priv_userHasPrivilege := t_userHasPrivilege;
  ps_findProblemById := t_findProblemById;
  ps_findProblemByDisplayId := t_findProblemByDisplayId;
  ps_userHasPermission := t_userHasPermission;
  ps_createProblem := t_createProblem;
  ps_updateProblemStatement := t_updateProblemStatement;
  ps_getProblemLocalizedTitle := t_getProblemLocalizedTitle;
  ps_getProblemLocalizedContent := t_getProblemLocalizedContent;
  ps_getProblemSamples := t_getProblemSamples;
  ps_getProblemJudgeInfo := t_getProblemJudgeInfo;
  ps_setProblemPermissions := t_setProblemPermissions;
  gs_findGroupById := t_findGroupById
|}.

(** *** Fixtures *)

Definition user (id : Z) (name mail : string) (public admin : bool) : UserEntity :=
  mkUserEntity id name mail public "" false "" "" admin 0 0 1500 0.

Definition alice : UserEntity := user 1 "alice" " Alice@Example.org " false false.
Definition bob : UserEntity := user 2 "bob" "bob@example.org" true false.
Definition carol : UserEntity := user 3 "carol" "carol@example.org" false false.
Definition root : UserEntity := user 4 "root" "root@example.org" false true.

Definition twoSums : StoredProblem :=
  mkStoredProblem (mkProblemEntity 10 1000 "TRADITIONAL" false 1 ["en"; "fr"])
    (mkStatement [("en", "Two sums")]
       [("fr", [mkProblemContentSectionDto "Description" TEXT None (Some "Additionner.")]);
        ("en", [mkProblemContentSectionDto "Description" TEXT None (Some "Add them.")])]).

Definition db0 : DB :=
  mkDB
    (mkIdentity [alice; bob; carol; root] [(1, "pw-a"); (2, "pw-b"); (4, "pw-r")]
       [(3, "MANAGE_USER")] None false)
    (mkCatalogue [twoSums] [7] [(7, 2)] [mkGrant 10 (GroupPrincipal 7) READ]).

(** The user rows of [db0], by primary key. *)
Definition user_table : gmap Z UserEntity :=
  <[1 := alice]> (<[2 := bob]> (<[3 := carol]> (<[4 := root]> ∅))).



Definition information : UserInformation :=
  mkUserInformation "Hello" true "ACM" "Lyon".

(** The same database with its writes failing. *)
Definition db_down : DB := on_identity (fun i =>
  mkIdentity (id_users i) (id_passwords i) (id_privileges i) (id_staged i) true) db0.

End Testbed.

(** ** Variants of the implementation

    Two variants of the testbed: one that loses its connection after a
    refused write, one whose [findByIds] answers with more than it was asked
    for. *)

Module TestbedVariants.
Import Testbed.

(** The testbed with other answers to the two availability counts and to
    [findByIds]. *)
Definition deps_with (count_username count_email : string -> Ext nat)
    (findByIds : list Z -> Ext (list UserEntity)) : Deps platform := {|
  parseInt := t_parseInt;
  md5_hex := t_md5_hex;
  trim := t_trim;
  toLowerCase := t_toLowerCase;
  repo_findOne := t_findOne;
  repo_findOne_username := t_findOne_username;
  repo_findByIds := findByIds;
  repo_count_id := t_count_id;
  repo_count_username := count_username;
  repo_count_email := count_email;
  repo_save := t_save;
  conn_startTransaction := t_startTransaction;
  conn_commitTransaction := t_commitTransaction;
  conn_rollbackTransaction := t_rollbackTransaction;
  tx_save := t_tx_save;
  auth_findUserAuthByUserId := t_findUserAuthByUserId;
  auth_changePassword := t_changePassword;
  priv_userHasPrivilege := t_userHasPrivilege;
  ps_findProblemById := t_findProblemById;
  ps_findProblemByDisplayId := t_findProblemByDisplayId;
  ps_userHasPermission := t_userHasPermission;
  ps_createProblem := t_createProblem;
  ps_updateProblemStatement := t_updateProblemStatement;
  ps_getProblemLocalizedTitle := t_getProblemLocalizedTitle;
  ps_getProblemLocalizedContent := t_getProblemLocalizedContent;
  ps_getProblemSamples := t_getProblemSamples;
  ps_getProblemJudgeInfo := t_getProblemJudgeInfo;
  ps_setProblemPermissions := t_setProblemPermissions;
  gs_findGroupById := t_findGroupById
|}.

(** The connection is lost once a write was refused: the counts fail. *)
Definition deps_counts_down : Deps platform :=
  deps_with (fun _ w => (Rejected "ECONNRESET", w)) (fun _ w => (Rejected "ECONNRESET", w))
    t_findByIds.

(** A repository whose [findByIds] answers with two versions of row 2, the
    newer one last, and with a row nobody asked for. *)
Definition bob_renamed : UserEntity := user 2 "robert" "bob@example.org" true false.

Definition deps_two_versions : Deps platform :=
  deps_with t_count_username t_count_email
    (fun _ w => (Fulfilled [bob; carol; bob_renamed], w)).

End TestbedVariants.

(** * Vocabulary of the statements *)

Section Vocabulary.
Context {Pl : Platform} {D : Deps Pl}.

(** A user table keyed by primary key, and what [findByIds] owes it: the
    rows of the requested ids, all of them and nothing else. *)
Definition keyed (table : gmap Z UserEntity) : Prop :=
  ∀ k r, table !! k = Some r → user_id r = k.

Definition answers (table : gmap Z UserEntity) (ids : list Z) (records : list UserEntity)
    : Prop :=
  ∀ r, r ∈ records ↔ ∃ k, k ∈ ids ∧ table !! k = Some r.

(** Who [getUserMeta] shows the email to: everybody when the user made it
    public, the user themselves, and a holder of MANAGE_USER (what the
    privilege service answers in world [w]). *)
Definition may_see_email (user : UserEntity) (currentUser : option UserEntity) (w : World)
    : Prop :=
  user_publicEmail user = true ∨
  ∃ c, currentUser = Some c ∧
       (user_id c = user_id user ∨
        fst (priv_userHasPrivilege c MANAGE_USER w) = Fulfilled true).

(** The privilege service answers (it does not reject) when asked. *)
Definition privilege_answers (currentUser : option UserEntity) (w : World) : Prop :=
  ∀ c, currentUser = Some c →
       ∃ b, fst (priv_userHasPrivilege c MANAGE_USER w) = Fulfilled b.

(** The post-hoc availability checks of [updateUserProfile]: the count
    finds the value taken, or the check (if the field was supplied at all)
    finds it free and leaves the world [w']. *)
Definition username_taken (v : string) (w : World) : Prop :=
  ∃ n w', repo_count_username v w = (Fulfilled (S n), w').

Definition email_taken (v : string) (w : World) : Prop :=
  ∃ n w', repo_count_email v w = (Fulfilled (S n), w').

Definition username_clear (username : option string) (w w' : World) : Prop :=
  match username with
  | None => w' = w
  | Some v => repo_count_username v w = (Fulfilled 0%nat, w')
  end.

Definition email_clear (email : option string) (w w' : World) : Prop :=
  match email with
  | None => w' = w
  | Some v => repo_count_email v w = (Fulfilled 0%nat, w')
  end.

Definition is_username_check (ev : Event) : Prop :=
  ∃ v, ev_call ev = Repo_count_username v.

Definition is_email_check (ev : Event) : Prop :=
  ∃ v, ev_call ev = Repo_count_email v.

(** In a run of calls, no email check comes before a username check. *)
Definition username_checked_first (evs : list Event) : Prop :=
  ∀ i j eu ee,
    evs !! i = Some eu → is_username_check eu →
    evs !! j = Some ee → is_email_check ee → (i < j)%nat.

(** The diagnosis without its condition on the checks: whenever the write
    is refused with [e] and no check finds a conflict, the call rejects
    with [e]. *)
Definition original_failure_reraised : Prop :=
  ∀ (username email : option string) (publicEmail : bool) (password : option string)
    (information : UserInformation) (m m1 : Machine UserEntity) (e : exn),
    updateUserProfile_try username email publicEmail password information m
      = (Rejected e, m1) →
    (∀ v, username = Some v → ¬ username_taken v (world m1)) →
    (∀ v w, email = Some v → ¬ email_taken v w) →
    fst (updateUserProfile username email publicEmail password information m) = Rejected e.

(** The calls a computation made: what it appended to the trace. *)
Definition events_since {L} (m m' : Machine L) : list Event :=
  drop (length (trace m)) (trace m').

(** The entity [updateUserProfile] is asked to store: username and email
    replaced when supplied, publicEmail and the four information fields
    replaced always, the other columns as they were. *)
Definition assigned (user : UserEntity) (username email : option string)
    (publicEmail : bool) (information : UserInformation) : UserEntity :=
  mkUserEntity (user_id user)
    (default (user_username user) username)
    (default (user_email user) email)
    publicEmail
    (info_bio information) (info_sexIsFamale information)
    (info_organization information) (info_location information)
    (user_isAdmin user) (user_acceptedProblemCount user) (user_submissionCount user)
    (user_rating user) (user_registrationTime user).

(** The call sequences of the transactional path of [updateUserProfile],
    for the entity [user] and the new password, with how each one settles. *)
Inductive unit_of_work (user : UserEntity) (password : string)
    : list Event → Completion exn unit → Prop :=
| uow_start_failed e r :
    unit_of_work user password
      [Ev (Conn_startTransaction READ_COMMITTED) (Threw e);
       Ev Conn_rollbackTransaction r]
      (Rejected e)
| uow_lookup_failed e r :
    unit_of_work user password
      [Ev (Conn_startTransaction READ_COMMITTED) Done;
       Ev (Auth_findUserAuthByUserId (user_id user)) (Threw e);
       Ev Conn_rollbackTransaction r]
      (Rejected e)
| uow_rotation_failed auth e r :
    unit_of_work user password
      [Ev (Conn_startTransaction READ_COMMITTED) Done;
       Ev (Auth_findUserAuthByUserId (user_id user)) Done;
       Ev (Auth_changePassword auth password) (Threw e);
       Ev Conn_rollbackTransaction r]
      (Rejected e)
| uow_save_failed auth e r :
    unit_of_work user password
      [Ev (Conn_startTransaction READ_COMMITTED) Done;
       Ev (Auth_findUserAuthByUserId (user_id user)) Done;
       Ev (Auth_changePassword auth password) Done;
       Ev (Tx_save user) (Threw e);
       Ev Conn_rollbackTransaction r]
      (Rejected e)
| uow_commit_failed auth e r :
    unit_of_work user password
      [Ev (Conn_startTransaction READ_COMMITTED) Done;
       Ev (Auth_findUserAuthByUserId (user_id user)) Done;
       Ev (Auth_changePassword auth password) Done;
       Ev (Tx_save user) Done;
       Ev Conn_commitTransaction (Threw e);
       Ev Conn_rollbackTransaction r]
      (Rejected e)
| uow_committed auth :
    unit_of_work user password
      [Ev (Conn_startTransaction READ_COMMITTED) Done;
       Ev (Auth_findUserAuthByUserId (user_id user)) Done;
       Ev (Auth_changePassword auth password) Done;
       Ev (Tx_save user) Done;
       Ev Conn_commitTransaction Done]
      (Fulfilled tt).

(** What the store promises about its committed rows, seen through [view]:
    counting, looking up credentials, opening a transaction, writing inside
    it and rolling it back leave them as they were, whatever these calls
    answer; a save, a commit or a password change that fails leaves them as
    they were too. *)
Record StoreContract {V : Type} (view : World → V) : Prop := {
  count_username_view v w r w' : repo_count_username v w = (r, w') → view w' = view w;
  count_email_view v w r w' : repo_count_email v w = (r, w') → view w' = view w;
  findUserAuth_view id w r w' : auth_findUserAuthByUserId id w = (r, w') → view w' = view w;
  start_view lvl w r w' : conn_startTransaction lvl w = (r, w') → view w' = view w;
  tx_save_view u w r w' : tx_save u w = (r, w') → view w' = view w;
  rollback_view w r w' : conn_rollbackTransaction w = (r, w') → view w' = view w;
  failed_commit_view w e w' : conn_commitTransaction w = (Rejected e, w') → view w' = view w;
  failed_save_view u w e w' : repo_save u w = (Rejected e, w') → view w' = view w;
  failed_rotation_view a p w e w' :
    auth_changePassword a p w = (Rejected e, w') → view w' = view w
}.

(** Changing a password writes none of the rows [view] shows. *)
Definition rotation_keeps {V : Type} (view : World → V) : Prop :=
  ∀ a p w r w', auth_changePassword a p w = (r, w') → view w' = view w.


Definition is_check (ev : Event) : Prop := is_username_check ev ∨ is_email_check ev.

(** The calls between the start of the unit of work and its end: the
    credential lookup, the rotation to [password], the save of [user]. *)
Definition in_unit (user : UserEntity) (password : string) (ev : Event) : Prop :=
  ev_call ev = Auth_findUserAuthByUserId (user_id user) ∨
  (∃ auth, ev_call ev = Auth_changePassword auth password) ∨
  ev_call ev = Tx_save user.

(** How a unit of work ends: committed, rolled back, or rolled back after
    the commit failed. *)
Definition closes_unit (evs : list Event) : Prop :=
  evs = [Ev Conn_commitTransaction Done] ∨
  (∃ r, evs = [Ev Conn_rollbackTransaction r]) ∨
  (∃ e r, evs = [Ev Conn_commitTransaction (Threw e); Ev Conn_rollbackTransaction r]).

Definition is_save (ev : Event) (u : UserEntity) : Prop :=
  ev_call ev = Repo_save u ∨ ev_call ev = Tx_save u.

(** Kinds of calls the controller makes. *)
Definition is_permission_check (ev : Event) (user : option UserEntity)
    (type : ProblemPermissionType) (problem : option ProblemEntity) : Prop :=
  ev_call ev = PS_userHasPermission user type problem.

Definition is_setProblemPermissions (ev : Event) : Prop :=
  ∃ p t users groups, ev_call ev = PS_setProblemPermissions p t users groups.

Definition is_user_lookup (ev : Event) : Prop := ∃ id, ev_call ev = Repo_findOne id.

Definition is_group_lookup (ev : Event) : Prop := ∃ id, ev_call ev = GS_findGroupById id.

(** [o] is [undefined]. *)
Definition absent {A} (o : option A) : bool :=
  match o with Some _ => false | None => true end.

(** The first id of [ids] that the directory [dir] does not know. *)
Definition first_missing {A} (dir : Z → option A) (ids : list Z) : option Z :=
  List.find (fun id => absent (dir id)) ids.

(** The events of one loop of lookups over [ids] by [call]: every id found
    ([None]), or found up to an id whose lookup answered [r], not [Found],
    where the loop stopped ([Some (id, r)]). *)
Inductive lookups (call : Z → Call) : list Z → list Event → option (Z * Reply) → Prop :=
| lookups_all ids :
    lookups call ids ((fun id => Ev (call id) Found) <$> ids) None
| lookups_stop pre id post r :
    r ≠ Found →
    lookups call (pre ++ id :: post)
      (((fun id => Ev (call id) Found) <$> pre) ++ [Ev (call id) r]) (Some (id, r)).

(** How a stopped loop ends the request: the lookup found nothing and the
    endpoint returns [error] with the id, or it threw and the endpoint
    rejects. *)
Definition stopped (error : SetProblemPermissionsResponseError.t) (id : Z) (r : Reply)
    (out : Completion exn SetProblemPermissionsResponseDto) : Prop :=
  (r = Missing ∧ out = Fulfilled (mkSetProblemPermissionsResponseDto (Some error) (Some id))) ∨
  (∃ e, r = Threw e ∧ out = Rejected e).

(** The runs of the endpoint [setProblemPermissions]: its calls, and how it
    settles. *)
Inductive spp_run (currentUser : option UserEntity)
    (request : SetProblemPermissionsRequestDto)
    : list Event → Completion exn SetProblemPermissionsResponseDto → Prop :=
| spp_find_threw e :
    spp_run currentUser request
      [Ev (PS_findProblemById (spp_problemId request)) (Threw e)] (Rejected e)
| spp_no_such_problem :
    spp_run currentUser request
      [Ev (PS_findProblemById (spp_problemId request)) Missing]
      (Fulfilled (mkSetProblemPermissionsResponseDto
                    (Some SetProblemPermissionsResponseError.NO_SUCH_PROBLEM)
                    (Some (spp_problemId request))))
| spp_check_threw p e :
    spp_run currentUser request
      [Ev (PS_findProblemById (spp_problemId request)) Found;
       Ev (PS_userHasPermission currentUser CONTROL (Some p)) (Threw e)] (Rejected e)
| spp_denied p :
    spp_run currentUser request
      [Ev (PS_findProblemById (spp_problemId request)) Found;
       Ev (PS_userHasPermission currentUser CONTROL (Some p)) (Answered false)]
      (Fulfilled (mkSetProblemPermissionsResponseDto
                    (Some SetProblemPermissionsResponseError.PERMISSION_DENIED) None))
| spp_user_stop p evsU id r out :
    lookups Repo_findOne (spp_userIds request) evsU (Some (id, r)) →
    stopped SetProblemPermissionsResponseError.NO_SUCH_USER id r out →
    spp_run currentUser request
      ([Ev (PS_findProblemById (spp_problemId request)) Found;
        Ev (PS_userHasPermission currentUser CONTROL (Some p)) (Answered true)]
       ++ evsU) out
| spp_group_stop p evsU evsG id r out :
    lookups Repo_findOne (spp_userIds request) evsU None →
    lookups GS_findGroupById (spp_groupIds request) evsG (Some (id, r)) →
    stopped SetProblemPermissionsResponseError.NO_SUCH_GROUP id r out →
    spp_run currentUser request
      ([Ev (PS_findProblemById (spp_problemId request)) Found;
        Ev (PS_userHasPermission currentUser CONTROL (Some p)) (Answered true)]
       ++ evsU ++ evsG) out
| spp_set p evsU evsG users groups r out :
    lookups Repo_findOne (spp_userIds request) evsU None →
    lookups GS_findGroupById (spp_groupIds request) evsG None →
    (r = Done ∧ out = Fulfilled (mkSetProblemPermissionsResponseDto None None) ∨
     ∃ e, r = Threw e ∧ out = Rejected e) →
    spp_run currentUser request
      ([Ev (PS_findProblemById (spp_problemId request)) Found;
        Ev (PS_userHasPermission currentUser CONTROL (Some p)) (Answered true)]
       ++ evsU ++ evsG
       ++ [Ev (PS_setProblemPermissions p (spp_permissionType request) users groups) r])
      out.

(** Lookups that answer and change nothing: a directory of the existing
    users and groups that stays as it is while the request runs. *)
Definition user_lookup_reads : Prop :=
  ∀ id w, ∃ o, repo_findOne id w = (Fulfilled o, w).

Definition group_lookup_reads : Prop :=
  ∀ id w, ∃ o, gs_findGroupById id w = (Fulfilled o, w).

(** The user (group) of an id in world [w], if there is one. *)
Definition users_at (w : World) (id : Z) : option UserEntity :=
  match fst (repo_findOne id w) with Fulfilled o => o | Rejected _ => None end.

Definition groups_at (w : World) (id : Z) : option GroupEntity :=
  match fst (gs_findGroupById id w) with Fulfilled o => o | Rejected _ => None end.

(** The request names a user id or a group id that nothing answers to. *)
Definition references_unknown (request : SetProblemPermissionsRequestDto) (w : World)
    : Prop :=
  (∃ id, id ∈ spp_userIds request ∧ users_at w id = None) ∨
  (∃ id, id ∈ spp_groupIds request ∧ groups_at w id = None).

(** The response is NO_SUCH_USER or NO_SUCH_GROUP with an id. *)
Definition reports_unknown (out : Completion exn SetProblemPermissionsResponseDto) : Prop :=
  ∃ id,
    out = Fulfilled (mkSetProblemPermissionsResponseDto
                       (Some SetProblemPermissionsResponseError.NO_SUCH_USER) (Some id)) ∨
    out = Fulfilled (mkSetProblemPermissionsResponseDto
                       (Some SetProblemPermissionsResponseError.NO_SUCH_GROUP) (Some id)).

(** Unknown principals reported for every request, whatever its problem id
    and its sender. *)
Definition unknown_principal_always_reported : Prop :=
  ∀ (currentUser : option UserEntity) (request : SetProblemPermissionsRequestDto)
    (w : World),
    references_unknown request w →
    reports_unknown (fst (setProblemPermissions currentUser request (boot tt w))).

Definition is_problem_lookup (ev : Event) : Prop :=
  (∃ id, ev_call ev = PS_findProblemById id) ∨
  (∃ id, ev_call ev = PS_findProblemByDisplayId id).

(** Every permission check among [evs] is at a level other than CREATE, on
    a problem that is there, and after a problem lookup that found one. *)
Definition checks_existing_problem (evs : list Event) : Prop :=
  ∀ i ev u t p,
    evs !! i = Some ev → is_permission_check ev u t p →
    t ≠ CREATE ∧
    ∃ q, p = Some q ∧
         ∃ j ev', (j < i)%nat ∧ evs !! j = Some ev' ∧
                  is_problem_lookup ev' ∧ ev_reply ev' = Found.

Definition no_permission_check (evs : list Event) : Prop :=
  ∀ ev u t p, ev ∈ evs → ¬ is_permission_check ev u t p.

Definition no_setProblemPermissions (evs : list Event) : Prop :=
  ∀ ev, ev ∈ evs → ¬ is_setProblemPermissions ev.

(** The problem lookup of [getProblemDetail] (lines 122-128): by id when
    the request has one, else by display id when it has one, else none. *)
Definition problem_lookup (request : GetProblemDetailRequestDto) (w : World)
    : Completion exn (option ProblemEntity) * World :=
  if truthy (gpd_id request)
  then ps_findProblemById (parseInt (default "" (gpd_id request))) w
  else if truthy (gpd_displayId request)
  then ps_findProblemByDisplayId (parseInt (default "" (gpd_displayId request))) w
  else (Fulfilled None, w).

End Vocabulary.

(** ** Vocabulary of the further properties *)

Section Outcomes.
Context {Pl : Platform} {D : Deps Pl}.

(** The record of [id] that [Object.fromEntries] keeps: the last one. *)
Definition last_with_id (records : list UserEntity) (id : Z) : option UserEntity :=
  List.find (fun record => Z.eqb (user_id record) id) (rev records).

(** A [UserMetaDto] without its email field. *)
Definition without_email (r : UserMetaDto) : UserMetaDto :=
  mkUserMetaDto (meta_id r) (meta_username r) None (meta_gravatarEmailHash r) (meta_bio r)
    (meta_sexIsFamale r) (meta_organization r) (meta_location r) (meta_isAdmin r)
    (meta_acceptedProblemCount r) (meta_submissionCount r) (meta_rating r)
    (meta_registrationTime r).

(** The DTO of [user] with the email field left out. *)
Definition public_meta (user : UserEntity) : UserMetaDto :=
  mkUserMetaDto (user_id user) (user_username user) None
    (md5_hex (toLowerCase (trim (user_email user)))) (user_bio user)
    (user_sexIsFamale user) (user_organization user) (user_location user)
    (user_isAdmin user) (user_acceptedProblemCount user) (user_submissionCount user)
    (user_rating user) (user_registrationTime user).

(** The availability checks after a failed write: at most one count of the
    supplied username, then at most one count of the supplied email. *)
Definition counts_supplied (username email : option string) (checks : list Event) : Prop :=
  ∃ cu ce,
    checks = cu ++ ce ∧
    (cu = [] ∨ ∃ v r, username = Some v ∧ cu = [Ev (Repo_count_username v) r]) ∧
    (ce = [] ∨ ∃ v r, email = Some v ∧ ce = [Ev (Repo_count_email v) r]).

(** A reply on which an endpoint goes on to its next step: the call
    returned, found what it looked for, or answered yes. *)
Definition goes_on (r : Reply) : Prop := r = Done ∨ r = Found ∨ r = Answered true.

(** The first call that is answered otherwise (nothing found, no, a
    rejection) is the last call. *)
Definition fail_fast (evs : list Event) : Prop :=
  ∀ i ev, evs !! i = Some ev → ¬ goes_on (ev_reply ev) → length evs = S i.

(** The endpoint rejects with [e] exactly when its last call threw [e]. *)
Definition rejects_with_last {A} (evs : list Event) (out : Completion exn A) : Prop :=
  ∀ e, out = Rejected e ↔ ∃ c, last evs = Some (Ev c (Threw e)).

(** The event reads title, content, samples or judge info of problem [p]. *)
Definition reads_content (ev : Event) (p : ProblemEntity) : Prop :=
  (∃ locale, ev_call ev = PS_getProblemLocalizedTitle p locale) ∨
  (∃ locale, ev_call ev = PS_getProblemLocalizedContent p locale) ∨
  ev_call ev = PS_getProblemSamples p ∨
  ev_call ev = PS_getProblemJudgeInfo p.

(** [meta] of a response of [getProblemDetail]: the six columns of [p]. *)
Definition meta_of (p : ProblemEntity) : ProblemMetaDto :=
  mkProblemMetaDto (problem_id p) (problem_displayId p) (problem_type p)
    (problem_isPublic p) (problem_ownerId p) (problem_locales p).

End Outcomes.

(** ** Running the monad *)

(** Unfold the combinators, then decide each collaborator call in turn. *)
Ltac unfold_async :=
  unfold bind, ret, throw, tryCatch, perform, deref, assign, done, answered in *;
  simpl in *.

Ltac settle_call :=
  match goal with
  | H : ?op = (_, _) |- context [match ?op with _ => _ end] => rewrite H; simpl
  | |- context [match ?op ?w with (_, _) => _ end] =>
      let r := fresh "r" in
      let w' := fresh "w" in
      let E := fresh "E" in
      destruct (op w) as [r w'] eqn:E; destruct r; simpl
  end;
  repeat match goal with
    | a : unit |- _ => destruct a
    | a : (_ * _)%type |- _ => destruct a
    end; simpl.

(** Facts about a short, explicit list of events, by its positions. *)
Ltac by_position :=
  repeat match goal with
    | H : (_ :: _) !! ?i = Some _ |- _ => destruct i; simpl in H
    | H : [] !! _ = Some _ |- _ => by rewrite lookup_nil in H
    | H : is_username_check _ |- _ => destruct H as [? H]; simpl in H
    | H : is_email_check _ |- _ => destruct H as [? H]; simpl in H
    end;
  simplify_eq; try lia.

(** Membership in a short, explicit list of events. *)
Ltac by_membership H :=
  repeat (apply elem_of_cons in H as [H | H]; [try discriminate H|]);
  try (by apply elem_of_nil in H).

(** Run a straight-line method: decide each call and each branch. *)
Ltac run_all :=
  repeat first
    [ settle_call
    | match goal with
      | |- context [match ?x with _ => _ end] => is_var x; destruct x; simpl
      | |- context [if ?x then _ else _] => is_var x; destruct x; simpl
      | |- context [if negb ?x then _ else _] => is_var x; destruct x; simpl
      end ].

(** Decide a closed goal by running it. *)
Ltac evaluate := vm_compute; reflexivity.

(** * Properties *)

Section UserServiceProperties.
Context {Pl : Platform} {D : Deps Pl}.

(** *** [findUsersByExistingIds] *)

Lemma elem_of_set_add_all (seen xs : list Z) (x : Z) :
  x ∈ set_add_all seen xs ↔ x ∈ seen ∨ x ∈ xs.
Proof.
  revert seen. induction xs as [|y xs IH]; intros seen; simpl.
  - rewrite elem_of_nil. tauto.
  - destruct (decide (y ∈ seen)) as [Hy|Hy]; rewrite IH, elem_of_cons.
    + split; [tauto|]. intros [?|[-> | ?]]; tauto.
    + rewrite elem_of_app, list_elem_of_singleton. tauto.
Qed.

Lemma NoDup_set_add_all (seen xs : list Z) :
  NoDup seen → NoDup (set_add_all seen xs).
Proof.
  revert seen. induction xs as [|y xs IH]; intros seen Hseen; simpl; [done|].
  destruct (decide (y ∈ seen)) as [Hy|Hy]; apply IH; [done|].
  apply NoDup_app. split_and!; [done| |apply NoDup_singleton].
  intros x Hx ->%list_elem_of_singleton. done.
Qed.

Lemma elem_of_array_from_set (xs : list Z) (x : Z) : x ∈ array_from_set xs ↔ x ∈ xs.
Proof.
  unfold array_from_set. rewrite elem_of_set_add_all, elem_of_nil. tauto.
Qed.

(** The entries are read left to right, so the last record of an id wins. *)
Lemma object_fromEntries_snoc (records : list UserEntity) (r : UserEntity) :
  object_fromEntries ((fun record => (user_id record, record)) <$> (records ++ [r]))
  = <[user_id r := r]>
      (object_fromEntries ((fun record => (user_id record, record)) <$> records)).
Proof.
  unfold object_fromEntries. rewrite fmap_app, foldl_app. reflexivity.
Qed.

Lemma object_fromEntries_Some (records : list UserEntity) (k : Z) (r : UserEntity) :
  object_fromEntries ((fun record => (user_id record, record)) <$> records) !! k = Some r →
  r ∈ records ∧ user_id r = k.
Proof.
  induction records as [|x records IH] using rev_ind.
  - unfold object_fromEntries. simpl. rewrite lookup_empty. discriminate.
  - rewrite object_fromEntries_snoc, elem_of_app, list_elem_of_singleton.
    destruct (decide (user_id x = k)) as [<-|Hne].
    + rewrite lookup_insert_eq. intros [= ->]. tauto.
    + rewrite lookup_insert_ne by done. intros H. destruct (IH H). tauto.
Qed.

Lemma object_fromEntries_is_Some (records : list UserEntity) (r : UserEntity) :
  r ∈ records →
  is_Some (object_fromEntries ((fun record => (user_id record, record)) <$> records)
             !! user_id r).
Proof.
  induction records as [|x records IH] using rev_ind.
  - intros H. by apply elem_of_nil in H.
  - rewrite object_fromEntries_snoc, elem_of_app, list_elem_of_singleton.
    intros Hr. destruct (decide (user_id x = user_id r)) as [->|Hne].
    + rewrite lookup_insert_eq. eauto.
    + rewrite lookup_insert_ne by done. destruct Hr as [Hr | ->]; [auto|done].
Qed.

Lemma object_fromEntries_answers table ids records k :
  keyed table → answers table ids records → k ∈ ids →
  object_fromEntries ((fun record => (user_id record, record)) <$> records) !! k
  = table !! k.
Proof.
  intros Hkey Hans Hk.
  destruct (object_fromEntries _ !! k) as [r|] eqn:Hmap.
  - apply object_fromEntries_Some in Hmap as [Hr <-].
    apply Hans in Hr as (k' & _ & Hk').
    by rewrite <- (Hkey _ _ Hk') in Hk'.
  - destruct (table !! k) as [r|] eqn:Htab; [|done].
    assert (r ∈ records) as Hr by (apply Hans; eauto).
    apply object_fromEntries_is_Some in Hr as [r' Hr'].
    rewrite (Hkey _ _ Htab) in Hr'. congruence.
Qed.

(** C10: the result of [findUsersByExistingIds] has one slot per input id, in
    input order and with repetitions kept; slot [i] holds the stored user
    whose id is the [i]-th input id, or nothing when there is none.  A
    non-empty input costs one query, whose ids are free of duplicates; the
    empty input gives the empty list without a query. *)
Theorem findUsersByExistingIds_by_position {L}
    (table : gmap Z UserEntity) (userIds : list Z) (m : Machine L)
    (records : list UserEntity) (w' : World) :
  keyed table →
  repo_findByIds (array_from_set userIds) (world m) = (Fulfilled records, w') →
  answers table (array_from_set userIds) records →
  (∃ result m',
      findUsersByExistingIds userIds m = (Fulfilled result, m') ∧
      length result = length userIds ∧
      (∀ i userId, userIds !! i = Some userId → result !! i = Some (table !! userId)) ∧
      (∀ i userId r, userIds !! i = Some userId → result !! i = Some (Some r) →
         user_id r = userId) ∧
      (userIds ≠ [] →
         events_since m m' = [Ev (Repo_findByIds (array_from_set userIds)) Done])) ∧
  NoDup (array_from_set userIds) ∧
  findUsersByExistingIds [] m = (Fulfilled [], m).
Proof.
  intros Hkey Hrepo Hans. split_and!.
  - unfold findUsersByExistingIds.
    destruct (decide (length userIds = 0%nat)) as [Hlen|Hlen].
    + destruct userIds; [|done]. exists [], m.
      split_and!; [done|done|..|intros Hne; by destruct Hne].
      all: intros i ? ?; by rewrite lookup_nil.
    + unfold userRepository_findByIds. unfold_async. rewrite Hrepo.
      eexists _, _. split; [reflexivity|].
      assert (∀ i userId, userIds !! i = Some userId →
                ((fun userId => object_fromEntries
                     ((fun record => (user_id record, record)) <$> records) !! userId)
                   <$> userIds) !! i = Some (table !! userId)) as Hslot.
      { intros i userId Hi. rewrite list_lookup_fmap, Hi. simpl. f_equal.
        eapply object_fromEntries_answers; [done..|].
        apply elem_of_array_from_set. eapply list_elem_of_lookup_2. exact Hi. }
      split_and!; [by rewrite length_fmap|exact Hslot| |].
      * intros i userId r Hi Hr. rewrite (Hslot _ _ Hi) in Hr.
        injection Hr as Hr. by apply Hkey.
      * intros _. unfold events_since. simpl. by rewrite drop_app_length.
  - apply NoDup_set_add_all, NoDup_nil_2.
  - reflexivity.
Qed.

(** *** [getUserMeta] *)

(** C9: in every result of [getUserMeta] the email field is the user's email
    exactly when the email is public, or the current user is that user, or
    the current user holds MANAGE_USER, and it is null otherwise; the hash of
    the trimmed, lower-cased email is in the result either way.  The call
    returns whenever the privilege service answers. *)
Theorem getUserMeta_email_disclosure {L}
    (user : UserEntity) (currentUser : option UserEntity) (m : Machine L) :
  (∀ r m', getUserMeta user currentUser m = (Fulfilled r, m') →
     (meta_email r = Some (user_email user) ↔ may_see_email user currentUser (world m)) ∧
     (¬ may_see_email user currentUser (world m) → meta_email r = None) ∧
     meta_gravatarEmailHash r = md5_hex (toLowerCase (trim (user_email user)))) ∧
  (privilege_answers currentUser (world m) →
     ∃ r m', getUserMeta user currentUser m = (Fulfilled r, m')).
Proof.
  unfold getUserMeta, userPrivilegeService_userHasPrivilege, may_see_email,
    privilege_answers.
  split.
  - intros r m'. unfold_async.
    destruct (user_publicEmail user) eqn:Hpub; simpl.
    { intros [= <- <-]. simpl. split_and!; [|tauto|done]. split; auto. }
    destruct currentUser as [c|]; simpl.
    2:{ intros [= <- <-]. simpl. split_and!; [|done|done].
        split; [done|]. intros [?|(c & ? & _)]; done. }
    destruct (decide (user_id c = user_id user)) as [Hid|Hid]; simpl.
    { intros [= <- <-]. simpl. split_and!; [|naive_solver|done].
      split; [|done]. intros _. right. eauto. }
    destruct (priv_userHasPrivilege c MANAGE_USER (world m)) as [[[]|e] w'] eqn:E;
      simpl; intros [= <- <-]; simpl.
    + split_and!; [|intros H; exfalso; apply H|done].
      * split; [|done]. intros _. right. exists c. rewrite E. auto.
      * right. exists c. rewrite E. auto.
    + split_and!; [|done|done].
      split; [done|]. intros [?|(c' & [= <-] & [?|Hp])]; [done..|].
      rewrite E in Hp. simpl in Hp. congruence.
  - intros Hans. unfold_async.
    destruct (user_publicEmail user); simpl; [eauto|].
    destruct currentUser as [c|]; simpl; [|eauto].
    destruct (decide (user_id c = user_id user)); simpl; [eauto|].
    destruct (Hans c eq_refl) as [b Hb].
    destruct (priv_userHasPrivilege c MANAGE_USER (world m)) as [[b'|e] w'];
      simpl in *; [eauto|congruence].
Qed.

(** *** [updateUserProfile]: the [catch] block *)

Ltac unfold_user_service :=
  unfold updateUserProfile, updateUserProfile_try, updateUserProfile_catch,
    checkUsernameAvailability, checkEmailAvailability, connection_transaction,
    transactionalEntityManager, userRepository_save, userRepository_count_username,
    userRepository_count_email, authService_findUserAuthByUserId,
    authService_changePassword in *.

Lemma updateUserProfile_catch_runs (username email : option string) (e : exn)
    (m1 : Machine UserEntity) :
  ∃ checks,
    trace (snd (updateUserProfile_catch username email e m1)) = trace m1 ++ checks ∧
    frame (snd (updateUserProfile_catch username email e m1)) = frame m1 ∧
    username_checked_first checks ∧
    (∀ ev, ev ∈ checks → is_username_check ev ∨ is_email_check ev) ∧
    fst (updateUserProfile_catch username email e m1) ≠ Fulfilled None.
Proof.
  unfold_user_service. unfold_async.
  destruct username as [u|], email as [a|]; simpl;
    repeat (settle_call; try match goal with n : nat |- _ => destruct n; simpl end);
    rewrite <- ?app_assoc; simpl;
    (eexists; split_and!; [..|done];
      [ reflexivity || (symmetry; apply app_nil_r)
      | reflexivity
      | intros i j eu ee Hi Hu Hj He; by_position
      | intros ev Hev; unfold is_username_check, is_email_check;
        repeat (apply elem_of_cons in Hev as [-> | Hev]; [simpl; eauto|]);
        by apply elem_of_nil in Hev ]).
Qed.

(** Every way out of the [catch] block: a duplicate; the error handed in,
    after checks that all returned; or the error of the last check. *)
Lemma updateUserProfile_catch_outcome (username email : option string) (e : exn)
    (m1 : Machine UserEntity) :
  let run := updateUserProfile_catch username email e m1 in
  ∃ checks,
    trace (snd run) = trace m1 ++ checks ∧
    (fst run = Fulfilled (Some DUPLICATE_USERNAME) ∨
     fst run = Fulfilled (Some DUPLICATE_EMAIL) ∨
     fst run = Rejected e ∧ Forall (fun ev => ev_reply ev = Done) checks ∨
     ∃ c e', last checks = Some (Ev c (Threw e')) ∧ fst run = Rejected e').
Proof.
  simpl. unfold_user_service. unfold_async.
  destruct username as [u|], email as [a|]; simpl;
    repeat (settle_call; try match goal with n : nat |- _ => destruct n; simpl end);
    rewrite <- ?app_assoc; simpl;
    (eexists; split; [reflexivity || (symmetry; apply app_nil_r)|]);
    first
      [ by left
      | by (right; left)
      | by (right; right; left; split; [reflexivity|repeat constructor])
      | by (right; right; right; eauto) ].
Qed.

(** C1: when the [try] body of [updateUserProfile] rejects with [e], the
    catch block decides the outcome.  A supplied username found taken gives
    DUPLICATE_USERNAME; otherwise a supplied email found taken gives
    DUPLICATE_EMAIL; when every check made answers and none finds a
    conflict, the call rejects with the same [e].  When a check itself
    rejects, with [e'], the call rejects with [e'] in place of [e].  These
    are all the outcomes: a duplicate, [e] after checks that all returned,
    or the error of the last check.  The username is checked before the
    email, and the catch block calls nothing else. *)
Theorem updateUserProfile_diagnoses_failure
    (username email : option string) (publicEmail : bool) (password : option string)
    (information : UserInformation) (m m1 : Machine UserEntity) (e : exn) :
  updateUserProfile_try username email publicEmail password information m
    = (Rejected e, m1) →
  (∀ v, username = Some v → username_taken v (world m1) →
     fst (updateUserProfile username email publicEmail password information m)
     = Fulfilled (Some DUPLICATE_USERNAME)) ∧
  (∀ w2 v, username_clear username (world m1) w2 → email = Some v → email_taken v w2 →
     fst (updateUserProfile username email publicEmail password information m)
     = Fulfilled (Some DUPLICATE_EMAIL)) ∧
  (∀ w2 w3, username_clear username (world m1) w2 → email_clear email w2 w3 →
     fst (updateUserProfile username email publicEmail password information m)
     = Rejected e) ∧
  (∀ v e' w', username = Some v →
     repo_count_username v (world m1) = (Rejected e', w') →
     fst (updateUserProfile username email publicEmail password information m)
     = Rejected e') ∧
  (∀ w2 v e' w', username_clear username (world m1) w2 → email = Some v →
     repo_count_email v w2 = (Rejected e', w') →
     fst (updateUserProfile username email publicEmail password information m)
     = Rejected e') ∧
  (∃ checks,
     trace (snd (updateUserProfile username email publicEmail password information m))
     = trace m1 ++ checks ∧
     username_checked_first checks ∧
     (∀ ev, ev ∈ checks → is_username_check ev ∨ is_email_check ev) ∧
     (fst (updateUserProfile username email publicEmail password information m)
      = Fulfilled (Some DUPLICATE_USERNAME) ∨
      fst (updateUserProfile username email publicEmail password information m)
      = Fulfilled (Some DUPLICATE_EMAIL) ∨
      fst (updateUserProfile username email publicEmail password information m)
      = Rejected e ∧ Forall (fun ev => ev_reply ev = Done) checks ∨
      ∃ c e', last checks = Some (Ev c (Threw e')) ∧
              fst (updateUserProfile username email publicEmail password information m)
              = Rejected e')).
Proof.
  intros Htry.
  assert (updateUserProfile username email publicEmail password information m
          = updateUserProfile_catch username email e m1) as ->.
  { unfold updateUserProfile, tryCatch, bind. by rewrite Htry. }
  split_and!.
  - intros v -> (n & w' & Hn). unfold_user_service. unfold_async. by rewrite Hn.
  - intros w2 v Hclear -> (n & w' & Hn). unfold_user_service. unfold_async.
    destruct username as [u|]; simpl in *.
    + rewrite Hclear. simpl. by rewrite Hn.
    + subst w2. by rewrite Hn.
  - intros w2 w3 Hu He. unfold_user_service. unfold_async.
    destruct username as [u|], email as [a|]; simpl in *; subst;
      rewrite ?Hu; simpl; rewrite ?He; done.
  - intros v e' w' -> Hcount. unfold_user_service. unfold_async. by rewrite Hcount.
  - intros w2 v e' w' Hclear -> Hcount. unfold_user_service. unfold_async.
    destruct username as [u|]; simpl in *.
    + rewrite Hclear. simpl. by rewrite Hcount.
    + subst w2. by rewrite Hcount.
  - destruct (updateUserProfile_catch_runs username email e m1)
      as (checks & Htrace & _ & Horder & Honly & _).
    destruct (updateUserProfile_catch_outcome username email e m1)
      as (checks' & Htrace' & Hout).
    simpl in Htrace'. rewrite Htrace in Htrace'. apply app_inv_head in Htrace'.
    subst checks'. eauto.
Qed.

(** *** [updateUserProfile]: the [try] body *)

Lemma events_since_app {L} (m m' : Machine L) (evs : list Event) :
  trace m' = trace m ++ evs → events_since m m' = evs.
Proof. unfold events_since. intros ->. apply drop_app_length. Qed.

(** Use the store contract on every call equation in the context. *)
Ltac views C :=
  repeat match goal with
    | E : repo_count_username _ _ = _ |- _ => apply (count_username_view _ C) in E
    | E : repo_count_email _ _ = _ |- _ => apply (count_email_view _ C) in E
    | E : auth_findUserAuthByUserId _ _ = _ |- _ => apply (findUserAuth_view _ C) in E
    | E : conn_startTransaction _ _ = _ |- _ => apply (start_view _ C) in E
    | E : tx_save _ _ = _ |- _ => apply (tx_save_view _ C) in E
    | E : conn_rollbackTransaction _ = _ |- _ => apply (rollback_view _ C) in E
    | E : conn_commitTransaction _ = (Rejected _, _) |- _ =>
        apply (failed_commit_view _ C) in E
    | E : repo_save _ _ = (Rejected _, _) |- _ => apply (failed_save_view _ C) in E
    | E : auth_changePassword _ _ _ = (Rejected _, _) |- _ =>
        apply (failed_rotation_view _ C) in E
    end.

(** Without a new password: one save of the assigned entity. *)
Lemma updateUserProfile_try_plain (username email : option string) (publicEmail : bool)
    (information : UserInformation) (m : Machine UserEntity) :
  let run := updateUserProfile_try username email publicEmail None information m in
  let user := assigned (frame m) username email publicEmail information in
  frame (snd run) = user ∧
  ∃ r, trace (snd run) = trace m ++ [Ev (Repo_save user) r] ∧
       (r = Done ∧ fst run = Fulfilled tt ∨ ∃ e, r = Threw e ∧ fst run = Rejected e).
Proof.
  unfold_user_service. unfold_async.
  destruct username, email; simpl; settle_call;
    (split; [reflexivity|]); eexists; (split; [reflexivity|]); eauto.
Qed.

(** With a new password: one of the six runs of [unit_of_work]. *)
Lemma updateUserProfile_try_transaction (username email : option string)
    (publicEmail : bool) (password : string) (information : UserInformation)
    (m : Machine UserEntity) :
  let run := updateUserProfile_try username email publicEmail (Some password) information m in
  let user := assigned (frame m) username email publicEmail information in
  frame (snd run) = user ∧
  ∃ evs, trace (snd run) = trace m ++ evs ∧ unit_of_work user password evs (fst run).
Proof.
  unfold_user_service. unfold_async.
  destruct username, email; simpl; repeat settle_call;
    rewrite <- ?app_assoc; simpl;
    (split; [reflexivity|]); eexists; (split; [reflexivity|]);
    match goal with
    | |- unit_of_work ?u ?p _ _ =>
        first [ exact (uow_start_failed u p _ _) | exact (uow_lookup_failed u p _ _)
              | exact (uow_rotation_failed u p _ _ _) | exact (uow_save_failed u p _ _ _)
              | exact (uow_commit_failed u p _ _ _) | exact (uow_committed u p _) ]
    end.
Qed.

Lemma updateUserProfile_try_plain_view {V} (view : World → V)
    (username email : option string) (publicEmail : bool)
    (information : UserInformation) (m m' : Machine UserEntity) (e : exn) :
  StoreContract view →
  updateUserProfile_try username email publicEmail None information m = (Rejected e, m') →
  view (world m') = view (world m).
Proof.
  intros C. unfold_user_service. unfold_async.
  destruct username, email; simpl; settle_call; intros [= <- <-]; simpl;
    views C; congruence.
Qed.

Lemma updateUserProfile_try_transaction_view {V} (view : World → V)
    (username email : option string) (publicEmail : bool) (password : string)
    (information : UserInformation) (m : Machine UserEntity) :
  StoreContract view →
  let run := updateUserProfile_try username email publicEmail (Some password) information m in
  (∀ auth e, Ev (Auth_changePassword auth password) (Threw e) ∈ events_since m (snd run) →
     view (world (snd run)) = view (world m)) ∧
  (rotation_keeps view → ∀ e, fst run = Rejected e →
     view (world (snd run)) = view (world m)).
Proof.
  intros C. unfold events_since. unfold_user_service. unfold_async.
  destruct username, email; simpl; repeat settle_call;
    rewrite <- ?app_assoc, ?drop_app_length; simpl;
    (split;
      [ intros auth e' Hin; by_membership Hin; views C; congruence
      | intros Hkeeps e' He'; try discriminate He';
        repeat match goal with
          | E : auth_changePassword _ _ _ = _ |- _ => apply Hkeeps in E
          end;
        views C; congruence ]).
Qed.

Lemma updateUserProfile_catch_view {V} (view : World → V)
    (username email : option string) (e : exn) (m1 : Machine UserEntity) :
  StoreContract view →
  view (world (snd (updateUserProfile_catch username email e m1))) = view (world m1).
Proof.
  intros C. unfold_user_service. unfold_async.
  destruct username as [u|], email as [a|]; simpl;
    repeat (settle_call; try match goal with n : nat |- _ => destruct n; simpl end);
    views C; congruence.
Qed.

(** The method is its [try] body, then either [return null] or the [catch]
    block. *)
Lemma updateUserProfile_unfold (username email : option string) (publicEmail : bool)
    (password : option string) (information : UserInformation) (m : Machine UserEntity) :
  updateUserProfile username email publicEmail password information m
  = match updateUserProfile_try username email publicEmail password information m with
    | (Fulfilled _, m1) => (Fulfilled None, m1)
    | (Rejected e, m1) => updateUserProfile_catch username email e m1
    end.
Proof.
  unfold updateUserProfile, tryCatch, bind, ret.
  by destruct (updateUserProfile_try _ _ _ _ _ m) as [[[]|e] m1].
Qed.

(** *** [updateUserProfile]: whole runs *)

(** Every run: the entity ends up assigned; the calls are the work of the
    [try] body, then the checks of the [catch] block, if it was entered. *)
Lemma updateUserProfile_runs (username email : option string) (publicEmail : bool)
    (password : option string) (information : UserInformation) (m : Machine UserEntity) :
  let run := updateUserProfile username email publicEmail password information m in
  let user := assigned (frame m) username email publicEmail information in
  frame (snd run) = user ∧
  ∃ work checks,
    events_since m (snd run) = work ++ checks ∧
    Forall is_check checks ∧
    (fst run = Fulfilled None → checks = []) ∧
    match password with
    | None =>
        ∃ r, work = [Ev (Repo_save user) r] ∧ (fst run = Fulfilled None → r = Done)
    | Some p =>
        ∃ out, unit_of_work user p work out ∧ (fst run = Fulfilled None → out = Fulfilled tt)
    end.
Proof.
  simpl. rewrite updateUserProfile_unfold.
  assert (∀ m1 e work,
            frame m1 = assigned (frame m) username email publicEmail information →
            trace m1 = trace m ++ work →
            let run := updateUserProfile_catch username email e m1 in
            frame (snd run) = assigned (frame m) username email publicEmail information ∧
            ∃ checks, events_since m (snd run) = work ++ checks ∧ Forall is_check checks ∧
                      (fst run = Fulfilled None → checks = [])) as Hcatch.
  { intros m1 e work Hframe Htrace. simpl.
    destruct (updateUserProfile_catch_runs username email e m1)
      as (checks & Hchecks & Hf & _ & Honly & Hnull).
    split; [congruence|]. exists checks. split_and!.
    - apply events_since_app. by rewrite Hchecks, Htrace, app_assoc.
    - by apply Forall_forall.
    - done. }
  destruct password as [p|].
  - destruct (updateUserProfile_try_transaction username email publicEmail p information m)
      as (Hframe & work & Htrace & Hwork).
    destruct (updateUserProfile_try _ _ _ _ _ m) as [[[]|e] m1]; simpl in *.
    + split; [done|]. exists work, []. rewrite app_nil_r.
      split_and!; [by apply events_since_app|constructor|done|eauto].
    + destruct (Hcatch m1 e work Hframe Htrace) as (Hf & checks & Hev & Hall & Hnull).
      split; [done|]. exists work, checks. split_and!; [done..|].
      exists (Rejected e). split; [done|]. intros H.
      destruct (updateUserProfile_catch_runs username email e m1) as (?&?&?&?&?&Hne).
      congruence.
  - destruct (updateUserProfile_try_plain username email publicEmail information m)
      as (Hframe & r & Htrace & Hr).
    destruct (updateUserProfile_try _ _ _ _ _ m) as [[[]|e] m1]; simpl in *.
    + split; [done|]. eexists _, []. rewrite app_nil_r.
      split_and!; [by apply events_since_app|constructor|done|].
      exists r. split; [done|]. intros _. by destruct Hr as [[? _]|(? & _ & ?)].
    + destruct (Hcatch m1 e _ Hframe Htrace) as (Hf & checks & Hev & Hall & Hnull).
      split; [done|]. eexists _, checks. split_and!; [done..|].
      exists r. split; [done|]. intros H.
      destruct (updateUserProfile_catch_runs username email e m1) as (?&?&?&?&?&Hne).
      congruence.
Qed.

Lemma check_is_no_rotation (checks : list Event) (auth : UserAuth) (p : string) (r : Reply) :
  Forall is_check checks → Ev (Auth_changePassword auth p) r ∉ checks.
Proof.
  intros Hall Hin. rewrite Forall_forall in Hall.
  destruct (Hall _ Hin) as [[v Hv]|[v Hv]]; discriminate Hv.
Qed.

(** The committed rows after a run that did not succeed. *)
Lemma updateUserProfile_view {V} (view : World → V)
    (username email : option string) (publicEmail : bool)
    (password : option string) (information : UserInformation) (m : Machine UserEntity) :
  StoreContract view →
  let run := updateUserProfile username email publicEmail password information m in
  (rotation_keeps view → fst run ≠ Fulfilled None →
     view (world (snd run)) = view (world m)) ∧
  (∀ p auth e, password = Some p →
     Ev (Auth_changePassword auth p) (Threw e) ∈ events_since m (snd run) →
     view (world (snd run)) = view (world m)).
Proof.
  intros C. simpl. rewrite updateUserProfile_unfold. split.
  - intros Hkeeps Hfail.
    destruct (updateUserProfile_try _ _ _ _ _ m) as [[[]|e] m1] eqn:Htry; [done|].
    rewrite (updateUserProfile_catch_view view _ _ _ _ C).
    destruct password as [p|].
    + pose proof (updateUserProfile_try_transaction_view view username email publicEmail
                    p information m C) as [_ Hview].
      rewrite Htry in Hview. eapply Hview; [done|reflexivity].
    + eapply updateUserProfile_try_plain_view; [done|exact Htry].
  - intros p auth e -> Hin.
    pose proof (updateUserProfile_try_transaction username email publicEmail
                  p information m) as (_ & work & Htrace & Hwork).
    pose proof (updateUserProfile_try_transaction_view view username email publicEmail
                  p information m C) as [Hview _].
    destruct (updateUserProfile_try _ _ _ _ _ m) as [[[]|e'] m1] eqn:Htry; simpl in *.
    + apply Hview in Hin. done.
    + destruct (updateUserProfile_catch_runs username email e' m1)
        as (checks & Hchecks & _ & _ & Honly & _).
      rewrite (updateUserProfile_catch_view view _ _ _ _ C).
      apply (Hview auth e).
      rewrite (events_since_app m m1 work Htrace).
      rewrite (events_since_app m _ (work ++ checks)) in Hin
        by (by rewrite Hchecks, Htrace, app_assoc).
      apply elem_of_app in Hin as [Hin|Hin]; [done|].
      exfalso. eapply check_is_no_rotation; [|exact Hin]. by apply Forall_forall.
Qed.

Lemma unit_of_work_shape (user : UserEntity) (p : string) (work : list Event)
    (out : Completion exn unit) :
  unit_of_work user p work out →
  ∃ r inside closing,
    work = Ev (Conn_startTransaction READ_COMMITTED) r :: inside ++ closing ∧
    Forall (in_unit user p) inside ∧ closes_unit closing.
Proof.
  unfold closes_unit.
  destruct 1;
    [ exists (Threw e), [], [Ev Conn_rollbackTransaction r]
    | exists Done, [Ev (Auth_findUserAuthByUserId (user_id user)) (Threw e)],
        [Ev Conn_rollbackTransaction r]
    | exists Done, [Ev (Auth_findUserAuthByUserId (user_id user)) Done;
                    Ev (Auth_changePassword auth p) (Threw e)],
        [Ev Conn_rollbackTransaction r]
    | exists Done, [Ev (Auth_findUserAuthByUserId (user_id user)) Done;
                    Ev (Auth_changePassword auth p) Done;
                    Ev (Tx_save user) (Threw e)],
        [Ev Conn_rollbackTransaction r]
    | exists Done, [Ev (Auth_findUserAuthByUserId (user_id user)) Done;
                    Ev (Auth_changePassword auth p) Done;
                    Ev (Tx_save user) Done],
        [Ev Conn_commitTransaction (Threw e); Ev Conn_rollbackTransaction r]
    | exists Done, [Ev (Auth_findUserAuthByUserId (user_id user)) Done;
                    Ev (Auth_changePassword auth p) Done;
                    Ev (Tx_save user) Done],
        [Ev Conn_commitTransaction Done] ];
    (split_and!; [reflexivity| |eauto 6]);
    repeat first [apply Forall_nil_2 | apply Forall_cons_2];
    unfold in_unit; simpl; eauto.
Qed.

(** With a new password, on every store: the calls of [updateUserProfile]
    open one transaction at READ COMMITTED, and the credential lookup, the
    rotation and the save of the entity are the calls between its start and
    its commit or rollback; only the post-hoc checks follow.  When the
    rotation ([changePassword]) fails, nothing is saved, nothing is
    committed, the transaction is rolled back, the call does not succeed,
    and the committed rows are what they were before the call.  Nothing is
    said here of a rotation that returned before the save or the commit
    failed: [changePassword] is handed the credentials and the password, not
    the entity manager of the transaction. *)
Lemma updateUserProfile_rotation_in_transaction {V} (view : World → V)
    (username email : option string) (publicEmail : bool) (password : string)
    (information : UserInformation) (m : Machine UserEntity) :
  StoreContract view →
  let run := updateUserProfile username email publicEmail (Some password) information m in
  let user := assigned (frame m) username email publicEmail information in
  let evs := events_since m (snd run) in
  (∃ r inside closing checks,
     evs = Ev (Conn_startTransaction READ_COMMITTED) r :: inside ++ closing ++ checks ∧
     Forall (in_unit user password) inside ∧
     closes_unit closing ∧
     Forall is_check checks) ∧
  (∀ auth e, Ev (Auth_changePassword auth password) (Threw e) ∈ evs →
     (∀ ev, ev ∈ evs →
        ev_call ev ≠ Conn_commitTransaction ∧ ∀ u, ¬ is_save ev u) ∧
     (∃ r, Ev Conn_rollbackTransaction r ∈ evs) ∧
     fst run ≠ Fulfilled None ∧
     view (world (snd run)) = view (world m)).
Proof.
  intros C. simpl.
  destruct (updateUserProfile_runs username email publicEmail (Some password) information m)
    as (_ & work & checks & Hevs & Hchecks & _ & out & Hwork & Hout).
  rewrite Hevs. split.
  - destruct (unit_of_work_shape _ _ _ _ Hwork) as (r & inside & closing & -> & ? & ?).
    exists r, inside, closing, checks. split_and!; [|done..].
    simpl. by rewrite <- app_assoc.
  - intros auth e Hin. split_and!.
    3:{ intros Hok. specialize (Hout Hok). subst out.
        apply elem_of_app in Hin as [Hin|Hin];
          [|by apply check_is_no_rotation in Hin].
        inversion Hwork; subst. by_membership Hin. }
    + assert (Ev (Auth_changePassword auth password) (Threw e) ∈ work) as Hrot.
      { apply elem_of_app in Hin as [?|Hin]; [done|].
        by apply check_is_no_rotation in Hin. }
      intros ev Hev. rewrite Forall_forall in Hchecks.
      apply elem_of_app in Hev as [Hev|Hev].
      * destruct Hwork; by_membership Hrot; by_membership Hev; subst ev;
          (split; [done|]); by intros u [?|?].
      * destruct (Hchecks _ Hev) as [[v Hv]|[v Hv]]; rewrite Hv;
          (split; [done|]); intros u [?|?]; simpl in *; congruence.
    + assert (∃ r, Ev Conn_rollbackTransaction r ∈ work) as [r Hr].
      { apply elem_of_app in Hin as [Hin|Hin];
          [|by apply check_is_no_rotation in Hin].
        destruct Hwork; by_membership Hin; eexists; rewrite !elem_of_cons; eauto 10. }
      exists r. apply elem_of_app. by left.
    + rewrite <- Hevs in Hin.
      destruct (updateUserProfile_view view username email publicEmail (Some password)
                  information m C) as [_ Hview].
      by apply (Hview password auth e).
Qed.

(** The entity after a run, and the entity every attempted save is given. *)
Lemma updateUserProfile_saves_assigned
    (username email : option string) (publicEmail : bool) (password : option string)
    (information : UserInformation) (m : Machine UserEntity) :
  let run := updateUserProfile username email publicEmail password information m in
  let user := assigned (frame m) username email publicEmail information in
  frame (snd run) = user ∧
  (∀ ev u, ev ∈ events_since m (snd run) → is_save ev u → u = user).
Proof.
  simpl.
  destruct (updateUserProfile_runs username email publicEmail password information m)
    as (Hframe & work & checks & Hevs & Hchecks & Hnull & Hwork).
  rewrite Hevs. rewrite Forall_forall in Hchecks. split; [done|].
  intros ev u Hev Hsave. apply elem_of_app in Hev as [Hev|Hev].
  - destruct password as [p|].
    + destruct Hwork as (out & Hwork & _).
      destruct Hwork; by_membership Hev; subst ev;
        destruct Hsave as [H|H]; simpl in H; congruence.
    + destruct Hwork as (r & -> & _). by_membership Hev. subst ev.
      destruct Hsave as [H|H]; simpl in H; congruence.
  - destruct (Hchecks _ Hev) as [[v Hv]|[v Hv]];
      destruct Hsave as [H|H]; congruence.
Qed.



End UserServiceProperties.

Section ProblemControllerProperties.
Context {Pl : Platform} {D : Deps Pl}.

Ltac unfold_controller :=
  unfold create, updateStatement, getProblemDetail, setProblemPermissions,
    problemService_findProblemById, problemService_findProblemByDisplayId,
    problemService_userHasPermission, problemService_createProblem,
    problemService_updateProblemStatement, problemService_getProblemLocalizedTitle,
    problemService_getProblemLocalizedContent, problemService_getProblemSamples,
    problemService_getProblemJudgeInfo, problemService_setProblemPermissions,
    groupService_findGroupById, findUserById, userRepository_findOne,
    getProblemDetail_error in *.

(** *** The two resolution loops *)

Lemma lookups_cons (call : Z → Call) (id : Z) (ids : list Z) (evs : list Event)
    (stop : option (Z * Reply)) :
  lookups call ids evs stop →
  lookups call (id :: ids) (Ev (call id) Found :: evs) stop.
Proof.
  destruct 1 as [ids|pre id' post r Hr].
  - apply (lookups_all call (id :: ids)).
  - apply (lookups_stop call (id :: pre) id' post r Hr).
Qed.

Lemma lookups_events (call : Z → Call) (ids : list Z) (evs : list Event)
    (stop : option (Z * Reply)) :
  lookups call ids evs stop → Forall (fun ev => ∃ id, ev_call ev = call id) evs.
Proof.
  assert (∀ l : list Z,
            Forall (fun ev => ∃ id, ev_call ev = call id)
              ((fun id => Ev (call id) Found) <$> l)) as Hfound.
  { intros l. apply Forall_fmap, Forall_true. intros id. simpl. eauto. }
  destruct 1; [apply Hfound|].
  apply Forall_app. split; [apply Hfound|].
  apply Forall_cons_2; [simpl; eauto|apply Forall_nil_2].
Qed.

Lemma resolveUsers_runs {L} (userIds : list Z) (users : list UserEntity) (m : Machine L) :
  ∃ evs stop,
    trace (snd (resolveUsers userIds users m)) = trace m ++ evs ∧
    lookups Repo_findOne userIds evs stop ∧
    match stop with
    | None => ∃ found, fst (resolveUsers userIds users m) = Fulfilled (inr (users ++ found))
    | Some (id, r) =>
        stopped SetProblemPermissionsResponseError.NO_SUCH_USER id r
          (match fst (resolveUsers userIds users m) with
           | Fulfilled (inl response) => Fulfilled response
           | Fulfilled (inr _) => Fulfilled (mkSetProblemPermissionsResponseDto None None)
           | Rejected e => Rejected e
           end) ∧
        ∀ found, fst (resolveUsers userIds users m) ≠ Fulfilled (inr found)
    end.
Proof.
  revert users m. induction userIds as [|id rest IH]; intros users m.
  - exists [], None. simpl. unfold ret. simpl. split_and!.
    + by rewrite app_nil_r.
    + apply (lookups_all Repo_findOne []).
    + exists []. by rewrite app_nil_r.
  - simpl. unfold_controller. unfold_async.
    destruct (repo_findOne id (world m)) as [[[u|]|e] w] eqn:E; simpl.
    + destruct (IH (users ++ [u]) (mkMachine (frame m) w
                   (trace m ++ [Ev (Repo_findOne id) Found])))
        as (evs & stop & Htrace & Hlook & Hout).
      exists (Ev (Repo_findOne id) Found :: evs), stop. split_and!.
      * rewrite Htrace. simpl. by rewrite <- app_assoc.
      * by apply lookups_cons.
      * destruct stop as [[id' r]|]; [done|].
        destruct Hout as [found Hfound]. exists (u :: found).
        rewrite Hfound. by rewrite <- app_assoc.
    + exists [Ev (Repo_findOne id) Missing], (Some (id, Missing)). split_and!.
      * done.
      * by apply (lookups_stop Repo_findOne [] id rest Missing).
      * left. done.
      * done.
    + exists [Ev (Repo_findOne id) (Threw e)], (Some (id, Threw e)). split_and!.
      * done.
      * by apply (lookups_stop Repo_findOne [] id rest (Threw e)).
      * right. eauto.
      * done.
Qed.

Lemma resolveGroups_runs {L} (groupIds : list Z) (groups : list GroupEntity)
    (m : Machine L) :
  ∃ evs stop,
    trace (snd (resolveGroups groupIds groups m)) = trace m ++ evs ∧
    lookups GS_findGroupById groupIds evs stop ∧
    match stop with
    | None => ∃ found, fst (resolveGroups groupIds groups m) = Fulfilled (inr (groups ++ found))
    | Some (id, r) =>
        stopped SetProblemPermissionsResponseError.NO_SUCH_GROUP id r
          (match fst (resolveGroups groupIds groups m) with
           | Fulfilled (inl response) => Fulfilled response
           | Fulfilled (inr _) => Fulfilled (mkSetProblemPermissionsResponseDto None None)
           | Rejected e => Rejected e
           end) ∧
        ∀ found, fst (resolveGroups groupIds groups m) ≠ Fulfilled (inr found)
    end.
Proof.
  revert groups m. induction groupIds as [|id rest IH]; intros groups m.
  - exists [], None. simpl. unfold ret. simpl. split_and!.
    + by rewrite app_nil_r.
    + apply (lookups_all GS_findGroupById []).
    + exists []. by rewrite app_nil_r.
  - simpl. unfold_controller. unfold_async.
    destruct (gs_findGroupById id (world m)) as [[[g|]|e] w] eqn:E; simpl.
    + destruct (IH (groups ++ [g]) (mkMachine (frame m) w
                   (trace m ++ [Ev (GS_findGroupById id) Found])))
        as (evs & stop & Htrace & Hlook & Hout).
      exists (Ev (GS_findGroupById id) Found :: evs), stop. split_and!.
      * rewrite Htrace. simpl. by rewrite <- app_assoc.
      * by apply lookups_cons.
      * destruct stop as [[id' r]|]; [done|].
        destruct Hout as [found Hfound]. exists (g :: found).
        rewrite Hfound. by rewrite <- app_assoc.
    + exists [Ev (GS_findGroupById id) Missing], (Some (id, Missing)). split_and!.
      * done.
      * by apply (lookups_stop GS_findGroupById [] id rest Missing).
      * left. done.
      * done.
    + exists [Ev (GS_findGroupById id) (Threw e)], (Some (id, Threw e)). split_and!.
      * done.
      * by apply (lookups_stop GS_findGroupById [] id rest (Threw e)).
      * right. eauto.
      * done.
Qed.

(** *** [setProblemPermissions] *)

Lemma setProblemPermissions_runs {L} (currentUser : option UserEntity)
    (request : SetProblemPermissionsRequestDto) (m : Machine L) :
  ∃ evs,
    trace (snd (setProblemPermissions currentUser request m)) = trace m ++ evs ∧
    spp_run currentUser request evs (fst (setProblemPermissions currentUser request m)).
Proof.
  unfold_controller. unfold_async.
  destruct (ps_findProblemById (spp_problemId request) (world m)) as [[[p|]|e] w1] eqn:E1;
    simpl; [|eexists; split; [reflexivity|constructor]..].
  destruct (ps_userHasPermission currentUser CONTROL (Some p) w1) as [[[]|e] w2] eqn:E2;
    simpl; rewrite <- ?app_assoc; simpl;
    [|eexists; split; [reflexivity|constructor]..].
  match goal with
  | |- context [resolveUsers ?ids ?us ?m2] =>
      destruct (resolveUsers_runs ids us m2) as (evsU & stopU & HtU & HlU & HoutU);
      destruct (resolveUsers ids us m2) as [[[response|users]|e] m3] eqn:EU
  end; simpl in *.
  - (* a user id is unknown *)
    destruct stopU as [[id r]|]; [|by destruct HoutU].
    destruct HoutU as [Hstop _].
    exists ([Ev (PS_findProblemById (spp_problemId request)) Found;
             Ev (PS_userHasPermission currentUser CONTROL (Some p)) (Answered true)]
            ++ evsU).
    split; [by rewrite HtU, <- app_assoc|]. by eapply spp_user_stop.
  - (* every user id resolved *)
    destruct stopU as [[id r]|]; [by destruct HoutU as [_ H]; destruct (H users)|].
    match goal with
    | |- context [resolveGroups ?ids ?gs ?m4] =>
        destruct (resolveGroups_runs ids gs m4) as (evsG & stopG & HtG & HlG & HoutG);
        destruct (resolveGroups ids gs m4) as [[[response|groups]|e] m5] eqn:EG
    end; simpl in *.
    + destruct stopG as [[id r]|]; [|by destruct HoutG].
      destruct HoutG as [Hstop _].
      exists ([Ev (PS_findProblemById (spp_problemId request)) Found;
               Ev (PS_userHasPermission currentUser CONTROL (Some p)) (Answered true)]
              ++ evsU ++ evsG).
      split; [by rewrite HtG, HtU, <- !app_assoc|]. by eapply spp_group_stop.
    + destruct stopG as [[id r]|]; [by destruct HoutG as [_ H]; destruct (H groups)|].
      destruct (ps_setProblemPermissions p (spp_permissionType request) users groups
                  (world m5)) as [[[]|e] w6] eqn:E6; simpl;
        (eexists ([Ev (PS_findProblemById (spp_problemId request)) Found;
                   Ev (PS_userHasPermission currentUser CONTROL (Some p)) (Answered true)]
                  ++ evsU ++ evsG ++ [Ev _ _]);
         split; [by rewrite HtG, HtU, <- !app_assoc|]; eapply spp_set; eauto).
    + destruct stopG as [[id r]|]; [|by destruct HoutG].
      destruct HoutG as [Hstop _].
      exists ([Ev (PS_findProblemById (spp_problemId request)) Found;
               Ev (PS_userHasPermission currentUser CONTROL (Some p)) (Answered true)]
              ++ evsU ++ evsG).
      split; [by rewrite HtG, HtU, <- !app_assoc|]. by eapply spp_group_stop.
  - (* a user lookup threw *)
    destruct stopU as [[id r]|]; [|by destruct HoutU].
    destruct HoutU as [Hstop _].
    exists ([Ev (PS_findProblemById (spp_problemId request)) Found;
             Ev (PS_userHasPermission currentUser CONTROL (Some p)) (Answered true)]
            ++ evsU).
    split; [by rewrite HtU, <- app_assoc|]. by eapply spp_user_stop.
Qed.

(** With lookups that only read, each loop is decided by the directory. *)
Lemma resolveUsers_reads {L} (userIds : list Z) (users : list UserEntity) (m : Machine L) :
  user_lookup_reads →
  world (snd (resolveUsers userIds users m)) = world m ∧
  fst (resolveUsers userIds users m)
  = Fulfilled
      match first_missing (users_at (world m)) userIds with
      | Some id =>
          inl (mkSetProblemPermissionsResponseDto
                 (Some SetProblemPermissionsResponseError.NO_SUCH_USER) (Some id))
      | None => inr (users ++ omap (users_at (world m)) userIds)
      end.
Proof.
  intros Hreads. revert users m.
  induction userIds as [|id rest IH]; intros users m; simpl.
  - unfold ret. simpl. by rewrite app_nil_r.
  - unfold_controller. unfold_async. unfold first_missing, users_at in *. simpl.
    destruct (Hreads id (world m)) as [o Ho]. rewrite Ho. simpl.
    destruct o as [u|]; simpl; [|done].
    match goal with |- context [resolveUsers rest ?us ?m2] =>
      destruct (IH us m2) as [Hw Hr] end.
    simpl in *. rewrite Hw, Hr. split; [done|].
    destruct (List.find _ rest); [done|]. by rewrite <- app_assoc.
Qed.

Lemma resolveGroups_reads {L} (groupIds : list Z) (groups : list GroupEntity)
    (m : Machine L) :
  group_lookup_reads →
  world (snd (resolveGroups groupIds groups m)) = world m ∧
  fst (resolveGroups groupIds groups m)
  = Fulfilled
      match first_missing (groups_at (world m)) groupIds with
      | Some id =>
          inl (mkSetProblemPermissionsResponseDto
                 (Some SetProblemPermissionsResponseError.NO_SUCH_GROUP) (Some id))
      | None => inr (groups ++ omap (groups_at (world m)) groupIds)
      end.
Proof.
  intros Hreads. revert groups m.
  induction groupIds as [|id rest IH]; intros groups m; simpl.
  - unfold ret. simpl. by rewrite app_nil_r.
  - unfold_controller. unfold_async. unfold first_missing, groups_at in *. simpl.
    destruct (Hreads id (world m)) as [o Ho]. rewrite Ho. simpl.
    destruct o as [g|]; simpl; [|done].
    match goal with |- context [resolveGroups rest ?gs ?m2] =>
      destruct (IH gs m2) as [Hw Hr] end.
    simpl in *. rewrite Hw, Hr. split; [done|].
    destruct (List.find _ rest); [done|]. by rewrite <- app_assoc.
Qed.

Lemma first_missing_Some {A} (dir : Z → option A) (ids : list Z) :
  (∃ id, id ∈ ids ∧ dir id = None) → is_Some (first_missing dir ids).
Proof.
  intros (id & Hin & Hid). unfold first_missing.
  destruct (List.find _ ids) eqn:Hfind; [eauto|].
  apply list_elem_of_In in Hin.
  pose proof (List.find_none _ _ Hfind id Hin) as H. simpl in H. by rewrite Hid in H.
Qed.

Lemma first_missing_spec {A} (dir : Z → option A) (ids : list Z) (id : Z) :
  first_missing dir ids = Some id →
  ∃ pre post, ids = pre ++ id :: post ∧ dir id = None ∧
              Forall (fun x => is_Some (dir x)) pre.
Proof.
  unfold first_missing. induction ids as [|x ids IH]; simpl; [done|].
  destruct (dir x) as [a|] eqn:Hx; simpl.
  - intros H. destruct (IH H) as (pre & post & -> & Hid & Hpre).
    exists (x :: pre), post. split_and!; [done..|].
    apply Forall_cons_2; [by rewrite Hx|done].
  - intros [= <-]. exists [], ids. split_and!; [done..|apply Forall_nil_2].
Qed.

Lemma order_by_segments (P Q : Event → Prop) (before after : list Event) :
  Forall (fun ev => ¬ Q ev) before →
  Forall (fun ev => ¬ P ev) after →
  ∀ i j ep eq,
    (before ++ after) !! i = Some ep → P ep →
    (before ++ after) !! j = Some eq → Q eq → (i < j)%nat.
Proof.
  intros Hbefore Hafter i j ep eq Hi HP Hj HQ.
  rewrite Forall_forall in Hbefore. rewrite Forall_forall in Hafter.
  apply lookup_app_Some in Hi as [Hi|[_ Hi]].
  2:{ exfalso. eapply Hafter; [|exact HP]. eapply list_elem_of_lookup_2. exact Hi. }
  apply lookup_app_Some in Hj as [Hj|[Hj _]].
  { exfalso. eapply Hbefore; [|exact HQ]. eapply list_elem_of_lookup_2. exact Hj. }
  apply lookup_lt_Some in Hi. lia.
Qed.

Lemma lookups_only (call : Z → Call) (ids : list Z) (evs : list Event)
    (stop : option (Z * Reply)) (P : Event → Prop) :
  lookups call ids evs stop →
  (∀ ev id, ev_call ev = call id → P ev) →
  Forall P evs.
Proof.
  intros Hl HP. eapply Forall_impl; [by eapply lookups_events|].
  intros ev [id Hid]. eauto.
Qed.

Lemma user_lookup_is_no (ev : Event) (id : Z) :
  ev_call ev = Repo_findOne id → ¬ is_group_lookup ev ∧ ¬ is_setProblemPermissions ev.
Proof.
  intros H. split; [intros [? H']|intros (?&?&?&?&H')]; congruence.
Qed.

Lemma group_lookup_is_no (ev : Event) (id : Z) :
  ev_call ev = GS_findGroupById id → ¬ is_user_lookup ev ∧ ¬ is_setProblemPermissions ev.
Proof.
  intros H. split; [intros [? H']|intros (?&?&?&?&H')]; congruence.
Qed.

Lemma spp_run_order (currentUser : option UserEntity)
    (request : SetProblemPermissionsRequestDto) (evs : list Event)
    (out : Completion exn SetProblemPermissionsResponseDto) :
  spp_run currentUser request evs out →
  ∀ i j eu eg,
    evs !! i = Some eu → is_user_lookup eu →
    evs !! j = Some eg → is_group_lookup eg → (i < j)%nat.
Proof.
  assert (∀ guard1 guard2 evsU evsG final ids1 ids2 stop1 stop2,
            guard1 = PS_findProblemById (spp_problemId request) →
            (∃ p, guard2 = PS_userHasPermission currentUser CONTROL (Some p)) →
            lookups Repo_findOne ids1 evsU stop1 →
            lookups GS_findGroupById ids2 evsG stop2 →
            Forall (fun ev => ¬ is_user_lookup ev) final →
            ∀ i j eu eg,
              ([Ev guard1 Found; Ev guard2 (Answered true)] ++ evsU ++ evsG ++ final) !! i
                = Some eu → is_user_lookup eu →
              ([Ev guard1 Found; Ev guard2 (Answered true)] ++ evsU ++ evsG ++ final) !! j
                = Some eg → is_group_lookup eg → (i < j)%nat) as Hsegments.
  { intros guard1 guard2 evsU evsG final ids1 ids2 stop1 stop2 -> [p ->] HU HG Hfinal.
    rewrite (app_assoc _ evsU). apply order_by_segments.
    - apply Forall_app. split.
      + repeat apply Forall_cons_2; [..|apply Forall_nil_2]; intros [? H]; discriminate H.
      + eapply lookups_only; [exact HU|]. intros ev id H. by eapply user_lookup_is_no.
    - apply Forall_app. split; [|done].
      eapply lookups_only; [exact HG|]. intros ev id H. by eapply group_lookup_is_no. }
  destruct 1 as [e| |p e|p|p evsU id r out HU Hstop|p evsU evsG id r out HU HG Hstop
                |p evsU evsG users groups r out HU HG Hout];
    try (intros i j eu eg Hi [? Hu] Hj [? Hg]; by_position; fail).
  - pose proof (Hsegments _ _ evsU [] [] _ [] _ None eq_refl (ex_intro _ p eq_refl) HU
                  (lookups_all GS_findGroupById []) (Forall_nil_2 _)) as H.
    by rewrite !app_nil_r in H.
  - pose proof (Hsegments _ _ evsU evsG [] _ _ _ _ eq_refl (ex_intro _ p eq_refl) HU HG
                  (Forall_nil_2 _)) as H.
    by rewrite !app_nil_r in H.
  - eapply Hsegments; eauto.
    apply Forall_cons_2; [|apply Forall_nil_2]. intros [? H]; discriminate H.
Qed.

Lemma lookups_elem (call : Z → Call) (ids : list Z) (evs : list Event)
    (stop : option (Z * Reply)) (ev : Event) :
  lookups call ids evs stop → ev ∈ evs → ∃ id, ev_call ev = call id.
Proof.
  intros Hl Hin. apply lookups_events in Hl. rewrite Forall_forall in Hl. eauto.
Qed.

(** Events of a run of the endpoint, case by case: an event of the two
    loops is a lookup and nothing else. *)
Ltac not_a_lookup :=
  match goal with
  | HU : lookups _ _ ?evs _, H : _ ∈ ?evs |- _ =>
      let Hc := fresh "Hc" in
      destruct (lookups_elem _ _ _ _ _ HU H) as [? Hc]; simpl in Hc;
      try discriminate Hc; try congruence
  end.

Ltac split_events H :=
  simpl in H;
  repeat first
    [ apply elem_of_cons in H as [H | H]; [try discriminate H|]
    | apply elem_of_app in H as [H | H]; [try not_a_lookup|] ];
  try (by apply elem_of_nil in H); try not_a_lookup.

Lemma spp_run_set (currentUser : option UserEntity)
    (request : SetProblemPermissionsRequestDto) (evs : list Event)
    (out : Completion exn SetProblemPermissionsResponseDto)
    (i : nat) (p : ProblemEntity) (t : ProblemPermissionType)
    (users : list UserEntity) (groups : list GroupEntity) (r : Reply) :
  spp_run currentUser request evs out →
  evs !! i = Some (Ev (PS_setProblemPermissions p t users groups) r) →
  (1 < i)%nat ∧
  evs !! 1%nat = Some (Ev (PS_userHasPermission currentUser CONTROL (Some p)) (Answered true)) ∧
  (out = Fulfilled (mkSetProblemPermissionsResponseDto None None) ∨ ∃ e, out = Rejected e).
Proof.
  intros Hrun Hi.
  assert (1 < i)%nat as Hlt.
  { destruct Hrun; destruct i as [|[|i]]; simpl in Hi; simplify_eq; lia. }
  apply list_elem_of_lookup_2 in Hi.
  destruct Hrun; split_events Hi.
  injection Hi as <- _ _ _ _. split_and!; [done|done|].
  match goal with H : _ ∨ _ |- _ => destruct H as [[_ ->]|(? & _ & ->)] end; eauto.
Qed.

Lemma spp_run_denied (currentUser : option UserEntity)
    (request : SetProblemPermissionsRequestDto) (evs : list Event)
    (out : Completion exn SetProblemPermissionsResponseDto) (p : option ProblemEntity) :
  spp_run currentUser request evs out →
  Ev (PS_userHasPermission currentUser CONTROL p) (Answered false) ∈ evs →
  ∃ q, p = Some q ∧
       evs = [Ev (PS_findProblemById (spp_problemId request)) Found;
              Ev (PS_userHasPermission currentUser CONTROL (Some q)) (Answered false)] ∧
       out = Fulfilled (mkSetProblemPermissionsResponseDto
                          (Some SetProblemPermissionsResponseError.PERMISSION_DENIED) None).
Proof.
  intros Hrun Hin. destruct Hrun; split_events Hin.
  injection Hin as ->. eauto.
Qed.

Lemma spp_run_error (currentUser : option UserEntity)
    (request : SetProblemPermissionsRequestDto) (evs : list Event)
    (response : SetProblemPermissionsResponseDto) (ev : Event) :
  spp_run currentUser request evs (Fulfilled response) →
  is_Some (spp_error response) →
  ev ∈ evs → ¬ is_setProblemPermissions ev.
Proof.
  intros Hrun [err Herr] Hin (p & t & us & gs & Hcall).
  inversion Hrun; subst; split_events Hin; subst; simpl in Hcall; try discriminate Hcall.
  match goal with H : _ ∨ _ |- _ => destruct H as [[_ H]|(? & _ & H)] end;
    simplify_eq.
Qed.

(** How the endpoint settles once the problem is found and CONTROL is
    granted, with lookups that only read. *)
Lemma setProblemPermissions_decided {L} (currentUser : option UserEntity)
    (request : SetProblemPermissionsRequestDto) (problem : ProblemEntity)
    (m : Machine L) (w1 w2 : World) :
  user_lookup_reads → group_lookup_reads →
  ps_findProblemById (spp_problemId request) (world m) = (Fulfilled (Some problem), w1) →
  ps_userHasPermission currentUser CONTROL (Some problem) w1 = (Fulfilled true, w2) →
  match first_missing (users_at w2) (spp_userIds request) with
  | Some id =>
      fst (setProblemPermissions currentUser request m)
      = Fulfilled (mkSetProblemPermissionsResponseDto
                     (Some SetProblemPermissionsResponseError.NO_SUCH_USER) (Some id))
  | None =>
      match first_missing (groups_at w2) (spp_groupIds request) with
      | Some id =>
          fst (setProblemPermissions currentUser request m)
          = Fulfilled (mkSetProblemPermissionsResponseDto
                         (Some SetProblemPermissionsResponseError.NO_SUCH_GROUP) (Some id))
      | None => True
      end
  end.
Proof.
  intros Hu Hg G1 G2. unfold setProblemPermissions.
  unfold problemService_findProblemById, problemService_userHasPermission.
  unfold_async. rewrite G1. simpl. rewrite G2. simpl.
  match goal with |- context [resolveUsers ?ids ?us ?m2] =>
    destruct (resolveUsers_reads ids us m2 Hu) as [HwU HrU];
    destruct (resolveUsers ids us m2) as [ru m3] end.
  simpl in *. subst ru.
  destruct (first_missing (users_at w2) (spp_userIds request)); simpl; [done|].
  match goal with |- context [resolveGroups ?ids ?gs ?m4] =>
    destruct (resolveGroups_reads ids gs m4 Hg) as [HwG HrG];
    destruct (resolveGroups ids gs m4) as [rg m5] end.
  simpl in *. subst rg. rewrite HwU.
  by destruct (first_missing (groups_at w2) (spp_groupIds request)).
Qed.

(** C3 (amended): for a request on an existing problem whose sender holds
    CONTROL, with lookups that only read: when some user id is unknown the
    endpoint returns NO_SUCH_USER with the first unknown user id; when all
    user ids are known and some group id is unknown it returns NO_SUCH_GROUP
    with the first unknown group id; in both cases
    [problemService.setProblemPermissions] is not called.  In every run the
    user lookups come before the group lookups. *)
Theorem setProblemPermissions_reports_unknown_principal {L}
    (currentUser : option UserEntity) (request : SetProblemPermissionsRequestDto)
    (problem : ProblemEntity) (m : Machine L) (w1 w2 : World) :
  user_lookup_reads → group_lookup_reads →
  ps_findProblemById (spp_problemId request) (world m) = (Fulfilled (Some problem), w1) →
  ps_userHasPermission currentUser CONTROL (Some problem) w1 = (Fulfilled true, w2) →
  let run := setProblemPermissions currentUser request m in
  let evs := events_since m (snd run) in
  (∀ id, first_missing (users_at w2) (spp_userIds request) = Some id →
     fst run = Fulfilled (mkSetProblemPermissionsResponseDto
                            (Some SetProblemPermissionsResponseError.NO_SUCH_USER) (Some id))) ∧
  (∀ id, first_missing (users_at w2) (spp_userIds request) = None →
     first_missing (groups_at w2) (spp_groupIds request) = Some id →
     fst run = Fulfilled (mkSetProblemPermissionsResponseDto
                            (Some SetProblemPermissionsResponseError.NO_SUCH_GROUP) (Some id))) ∧
  (references_unknown request w2 →
     reports_unknown (fst run) ∧ ∀ ev, ev ∈ evs → ¬ is_setProblemPermissions ev) ∧
  (∀ i j eu eg,
     evs !! i = Some eu → is_user_lookup eu →
     evs !! j = Some eg → is_group_lookup eg → (i < j)%nat).
Proof.
  intros Hu Hg G1 G2. simpl.
  pose proof (setProblemPermissions_decided currentUser request problem m w1 w2
                Hu Hg G1 G2) as Hdecided.
  destruct (setProblemPermissions_runs currentUser request m) as (evs & Htrace & Hrun).
  rewrite (events_since_app _ _ _ Htrace).
  split_and!.
  - intros id Hid. by rewrite Hid in Hdecided.
  - intros id HU HG. by rewrite HU, HG in Hdecided.
  - intros Hunknown.
    assert (∃ err id, fst (setProblemPermissions currentUser request m)
                      = Fulfilled (mkSetProblemPermissionsResponseDto (Some err) (Some id)) ∧
                      (err = SetProblemPermissionsResponseError.NO_SUCH_USER ∨
                       err = SetProblemPermissionsResponseError.NO_SUCH_GROUP))
      as (err & id & Hout & Herr).
    { destruct (first_missing (users_at w2) (spp_userIds request)) as [id|] eqn:HU;
        [eauto|].
      destruct Hunknown as [Hx|Hx].
      - apply first_missing_Some in Hx as [? Hx]. congruence.
      - apply first_missing_Some in Hx as [id Hx]. rewrite Hx in Hdecided. eauto. }
    split.
    + exists id. destruct Herr as [-> | ->]; eauto.
    + intros ev Hev. rewrite Hout in Hrun.
      eapply spp_run_error; [exact Hrun| |exact Hev]. simpl. eauto.
  - by eapply spp_run_order.
Qed.

(** The endpoint [setProblemPermissions] and the CONTROL check. *)
Lemma setProblemPermissions_after_control {L}
    (currentUser : option UserEntity) (request : SetProblemPermissionsRequestDto)
    (m : Machine L) :
  let run := setProblemPermissions currentUser request m in
  let evs := events_since m (snd run) in
  (∀ i p t users groups r,
     evs !! i = Some (Ev (PS_setProblemPermissions p t users groups) r) →
     ∃ j, (j < i)%nat ∧
          evs !! j = Some (Ev (PS_userHasPermission currentUser CONTROL (Some p))
                              (Answered true))) ∧
  (∀ p, Ev (PS_userHasPermission currentUser CONTROL p) (Answered false) ∈ evs →
     fst run = Fulfilled (mkSetProblemPermissionsResponseDto
                            (Some SetProblemPermissionsResponseError.PERMISSION_DENIED) None) ∧
     (∃ q, p = Some q ∧
           evs = [Ev (PS_findProblemById (spp_problemId request)) Found;
                  Ev (PS_userHasPermission currentUser CONTROL (Some q)) (Answered false)]) ∧
     no_setProblemPermissions evs).
Proof.
  simpl.
  destruct (setProblemPermissions_runs currentUser request m) as (evs & Htrace & Hrun).
  rewrite (events_since_app _ _ _ Htrace). split.
  - intros i p t users groups r Hi.
    destruct (spp_run_set _ _ _ _ _ _ _ _ _ _ Hrun Hi) as (Hlt & Hcheck & _).
    exists 1%nat. done.
  - intros p Hin.
    destruct (spp_run_denied _ _ _ _ _ Hrun Hin) as (q & -> & -> & Hout).
    split_and!; [done|eauto|].
    intros ev Hev (p & t & us & gs & Hcall). by_membership Hev; subst ev; discriminate Hcall.
Qed.

(** *** The other endpoints *)

(** One leaf of a straight-line run: its events are known, one by one. *)
Ltac leaf_events :=
  unfold events_since; simpl; rewrite <- ?app_assoc, ?drop_app_length, ?drop_all; simpl.

Ltac leaf_checks_existing :=
  let i := fresh "i" in
  let Hi := fresh "Hi" in
  let Hc := fresh "Hc" in
  intros i ? ? ? ? Hi Hc; unfold is_permission_check in Hc;
  repeat match type of Hi with
    | (_ :: _) !! _ = Some _ =>
        destruct i as [|i]; simpl in Hi; [simplify_eq; simpl in Hc; try discriminate Hc|]
    end;
  try (by rewrite lookup_nil in Hi);
  injection Hc as <- <- <-;
  (split; [discriminate|]); eexists; (split; [reflexivity|]);
  exists 0%nat; eexists; (split; [lia|]); (split; [reflexivity|]);
  (split; [|reflexivity]); unfold is_problem_lookup; simpl; eauto.

Ltac leaf_none :=
  let Hev := fresh "Hev" in
  let Hc := fresh "Hc" in
  first
    [ intros ? ? ? ? Hev Hc; unfold is_permission_check in Hc
    | intros ? Hev (? & ? & ? & ? & Hc) ];
  by_membership Hev; subst; simpl in Hc; discriminate Hc.

Lemma create_calls {L} (currentUser : option UserEntity) (request : CreateProblemRequestDto)
    (m : Machine L) :
  no_setProblemPermissions (events_since m (snd (create currentUser request m))) ∧
  (∀ ev u t p,
     ev ∈ events_since m (snd (create currentUser request m)) →
     is_permission_check ev u t p → t = CREATE).
Proof.
  unfold no_setProblemPermissions, is_permission_check. unfold_controller. unfold_async.
  run_all; leaf_events;
    (split; [leaf_none|]); intros ? ? ? ? Hev Hc;
    by_membership Hev; subst; simpl in Hc; congruence.
Qed.

Lemma updateStatement_calls {L} (currentUser : option UserEntity)
    (request : UpdateProblemStatementRequestDto) (m : Machine L) :
  let run := updateStatement currentUser request m in
  let evs := events_since m (snd run) in
  no_setProblemPermissions evs ∧
  checks_existing_problem evs ∧
  (fst (ps_findProblemById (upr_problemId request) (world m)) = Fulfilled None →
     fst run = Fulfilled (mkUpdateProblemStatementResponseDto
                            (Some UpdateProblemStatementResponseError.NO_SUCH_PROBLEM)) ∧
     no_permission_check evs).
Proof.
  unfold no_setProblemPermissions, checks_existing_problem, no_permission_check.
  unfold_controller. unfold_async.
  run_all; leaf_events;
    (split_and!; [leaf_none|leaf_checks_existing|]);
    intros Hnone; try discriminate Hnone; (split; [reflexivity|leaf_none]).
Qed.

Lemma getProblemDetail_calls {L} (currentUser : option UserEntity)
    (request : GetProblemDetailRequestDto) (m : Machine L) :
  let run := getProblemDetail currentUser request m in
  let evs := events_since m (snd run) in
  no_setProblemPermissions evs ∧
  checks_existing_problem evs ∧
  ((truthy (gpd_id request) = true ∧
    fst (ps_findProblemById (parseInt (default "" (gpd_id request))) (world m))
    = Fulfilled None) ∨
   (truthy (gpd_id request) = false ∧ truthy (gpd_displayId request) = true ∧
    fst (ps_findProblemByDisplayId (parseInt (default "" (gpd_displayId request))) (world m))
    = Fulfilled None) ∨
   (truthy (gpd_id request) = false ∧ truthy (gpd_displayId request) = false) →
     fst run = Fulfilled (getProblemDetail_error GetProblemDetailResponseError.NO_SUCH_PROBLEM) ∧
     no_permission_check evs).
Proof.
  unfold no_setProblemPermissions, checks_existing_problem, no_permission_check.
  unfold_controller. unfold_async.
  destruct (truthy (gpd_id request)) eqn:Hid;
    [|destruct (truthy (gpd_displayId request)) eqn:Hdisplay];
    run_all; leaf_events;
    (split_and!; [leaf_none|leaf_checks_existing|]);
    (intros [[? Hnone]|[(? & ? & Hnone)|[? ?]]]; try discriminate;
     (split; [reflexivity|leaf_none])).
Qed.

Lemma spp_run_checks (currentUser : option UserEntity)
    (request : SetProblemPermissionsRequestDto) (evs : list Event)
    (out : Completion exn SetProblemPermissionsResponseDto) :
  spp_run currentUser request evs out → checks_existing_problem evs.
Proof.
  intros Hrun i ev u t p Hi Hc. unfold is_permission_check in Hc.
  assert (∀ q r rest,
            evs = [Ev (PS_findProblemById (spp_problemId request)) Found;
                   Ev (PS_userHasPermission currentUser CONTROL (Some q)) r] ++ rest →
            (∀ ev', ev' ∈ rest → ev_call ev' ≠ PS_userHasPermission u t p) →
            t ≠ CREATE ∧
            ∃ q', p = Some q' ∧
                  ∃ j ev', (j < i)%nat ∧ evs !! j = Some ev' ∧
                           is_problem_lookup ev' ∧ ev_reply ev' = Found) as Hguarded.
  { intros q r rest -> Hrest. destruct i as [|[|i]]; simpl in Hi; simplify_eq.
    - simpl in Hc. injection Hc as <- <- <-. split; [done|].
      exists q. split; [done|]. exists 0%nat. eexists. split_and!; [lia|done| |done].
      left. simpl. eauto.
    - exfalso. eapply Hrest; [|exact Hc]. eapply list_elem_of_lookup_2. exact Hi. }
  destruct Hrun.
  - destruct i as [|i]; simpl in Hi; simplify_eq; try (by rewrite lookup_nil in Hi).
  - destruct i as [|i]; simpl in Hi; simplify_eq; try (by rewrite lookup_nil in Hi).
  - eapply (Hguarded p0 (Threw e)); [reflexivity|].
    intros ev' Hev. by apply elem_of_nil in Hev.
  - eapply (Hguarded p0 (Answered false)); [reflexivity|].
    intros ev' Hev. by apply elem_of_nil in Hev.
  - eapply (Hguarded p0 (Answered true)); [reflexivity|].
    intros ev' Hev Hc'. split_events Hev.
  - eapply (Hguarded p0 (Answered true)); [reflexivity|].
    intros ev' Hev Hc'. split_events Hev.
  - eapply (Hguarded p0 (Answered true)); [reflexivity|].
    intros ev' Hev Hc'. split_events Hev. by subst ev'.
Qed.

Lemma setProblemPermissions_no_problem {L} (currentUser : option UserEntity)
    (request : SetProblemPermissionsRequestDto) (m : Machine L) :
  fst (ps_findProblemById (spp_problemId request) (world m)) = Fulfilled None →
  fst (setProblemPermissions currentUser request m)
  = Fulfilled (mkSetProblemPermissionsResponseDto
                 (Some SetProblemPermissionsResponseError.NO_SUCH_PROBLEM)
                 (Some (spp_problemId request))) ∧
  no_permission_check (events_since m (snd (setProblemPermissions currentUser request m))).
Proof.
  unfold no_permission_check. unfold_controller. unfold_async.
  destruct (ps_findProblemById (spp_problemId request) (world m)) as [[[p|]|e] w] eqn:E;
    simpl; intros Hnone; try discriminate Hnone.
  leaf_events. split; [reflexivity|leaf_none].
Qed.

(** C4: in [updateStatement], [getProblemDetail] and
    [setProblemPermissions], when the problem lookup finds nothing (or the
    request of [getProblemDetail] names no problem) the endpoint returns
    NO_SUCH_PROBLEM and makes no permission check; and every permission
    check these endpoints make is at a level other than CREATE, on a
    problem that is there, after the lookup that found it.  The one
    endpoint that checks without a problem, [create], checks CREATE. *)
Theorem permission_checked_on_existing_problem {L} (currentUser : option UserEntity)
    (m : Machine L) :
  (∀ request,
     let run := updateStatement currentUser request m in
     let evs := events_since m (snd run) in
     checks_existing_problem evs ∧
     (fst (ps_findProblemById (upr_problemId request) (world m)) = Fulfilled None →
        fst run = Fulfilled (mkUpdateProblemStatementResponseDto
                               (Some UpdateProblemStatementResponseError.NO_SUCH_PROBLEM)) ∧
        no_permission_check evs)) ∧
  (∀ request,
     let run := getProblemDetail currentUser request m in
     let evs := events_since m (snd run) in
     checks_existing_problem evs ∧
     ((truthy (gpd_id request) = true ∧
       fst (ps_findProblemById (parseInt (default "" (gpd_id request))) (world m))
       = Fulfilled None) ∨
      (truthy (gpd_id request) = false ∧ truthy (gpd_displayId request) = true ∧
       fst (ps_findProblemByDisplayId (parseInt (default "" (gpd_displayId request)))
              (world m))
       = Fulfilled None) ∨
      (truthy (gpd_id request) = false ∧ truthy (gpd_displayId request) = false) →
        fst run
        = Fulfilled (getProblemDetail_error GetProblemDetailResponseError.NO_SUCH_PROBLEM) ∧
        no_permission_check evs)) ∧
  (∀ request,
     let run := setProblemPermissions currentUser request m in
     let evs := events_since m (snd run) in
     checks_existing_problem evs ∧
     (fst (ps_findProblemById (spp_problemId request) (world m)) = Fulfilled None →
        fst run = Fulfilled (mkSetProblemPermissionsResponseDto
                               (Some SetProblemPermissionsResponseError.NO_SUCH_PROBLEM)
                               (Some (spp_problemId request))) ∧
        no_permission_check evs)) ∧
  (∀ request ev u t p,
     ev ∈ events_since m (snd (create currentUser request m)) →
     is_permission_check ev u t p → t = CREATE).
Proof.
  split_and!; intros request; simpl.
  - destruct (updateStatement_calls currentUser request m) as (_ & ? & ?). done.
  - destruct (getProblemDetail_calls currentUser request m) as (_ & ? & ?). done.
  - split; [|apply setProblemPermissions_no_problem].
    destruct (setProblemPermissions_runs currentUser request m) as (evs & Htrace & Hrun).
    rewrite (events_since_app _ _ _ Htrace). by eapply spp_run_checks.
  - apply create_calls.
Qed.

(** C5: in the whole controller, [problemService.setProblemPermissions] is
    called by the endpoint [setProblemPermissions] only, and there only
    after a CONTROL check of the current user on the same problem answered
    true in the same run; when the CONTROL check answers false the endpoint
    returns PERMISSION_DENIED as a value, having made no call but the
    problem lookup and the check. *)
Theorem setProblemPermissions_requires_control {L}
    (currentUser : option UserEntity) (m : Machine L) :
  (∀ request,
     let run := setProblemPermissions currentUser request m in
     let evs := events_since m (snd run) in
     (∀ i p t users groups r,
        evs !! i = Some (Ev (PS_setProblemPermissions p t users groups) r) →
        ∃ j, (j < i)%nat ∧
             evs !! j = Some (Ev (PS_userHasPermission currentUser CONTROL (Some p))
                                 (Answered true))) ∧
     (∀ p, Ev (PS_userHasPermission currentUser CONTROL p) (Answered false) ∈ evs →
        fst run = Fulfilled (mkSetProblemPermissionsResponseDto
                               (Some SetProblemPermissionsResponseError.PERMISSION_DENIED)
                               None) ∧
        (∃ q, p = Some q ∧
              evs = [Ev (PS_findProblemById (spp_problemId request)) Found;
                     Ev (PS_userHasPermission currentUser CONTROL (Some q))
                        (Answered false)]) ∧
        no_setProblemPermissions evs)) ∧
  (∀ request,
     no_setProblemPermissions (events_since m (snd (create currentUser request m)))) ∧
  (∀ request,
     no_setProblemPermissions
       (events_since m (snd (updateStatement currentUser request m)))) ∧
  (∀ request,
     no_setProblemPermissions
       (events_since m (snd (getProblemDetail currentUser request m)))).
Proof.
  split_and!; intros request.
  - apply setProblemPermissions_after_control.
  - apply create_calls.
  - by destruct (updateStatement_calls currentUser request m) as (? & _).
  - by destruct (getProblemDetail_calls currentUser request m) as (? & _).
Qed.

(** *** [getProblemDetail]: the two locales *)

Ltac leaf_index :=
  let i := fresh "i" in
  let Hi := fresh "Hi" in
  intros i ? ? ? Hi;
  repeat match type of Hi with
    | (_ :: _) !! _ = Some _ =>
        destruct i as [|i]; simpl in Hi; [try discriminate Hi; simplify_eq; try done|]
    end;
  try (by rewrite lookup_nil in Hi).

Lemma getProblemDetail_locales {L} (currentUser : option UserEntity)
    (request : GetProblemDetailRequestDto) (problem : ProblemEntity)
    (m : Machine L) (w1 w2 : World) :
  problem_lookup request (world m) = (Fulfilled (Some problem), w1) →
  ps_userHasPermission currentUser READ (Some problem) w1 = (Fulfilled true, w2) →
  let run := getProblemDetail currentUser request m in
  let evs := events_since m (snd run) in
  let locale := gpd_locale request in
  (∃ r1, evs !! 2%nat = Some (Ev (PS_getProblemLocalizedTitle problem locale) r1) ∧
         (r1 = Done →
          ∃ r2, evs !! 3%nat = Some (Ev (PS_getProblemLocalizedContent problem locale) r2))) ∧
  (∀ i p l r, evs !! i = Some (Ev (PS_getProblemLocalizedTitle p l) r) → i = 2%nat) ∧
  (∀ i p l r, evs !! i = Some (Ev (PS_getProblemLocalizedContent p l) r) → i = 3%nat) ∧
  (∀ response, fst run = Fulfilled response →
     ∃ titleLocale title w3 contentLocale contentSections w4,
       ps_getProblemLocalizedTitle problem locale w2 = (Fulfilled (titleLocale, title), w3) ∧
       ps_getProblemLocalizedContent problem locale w3
       = (Fulfilled (contentLocale, contentSections), w4) ∧
       gp_error response = None ∧
       gp_title response = Some title ∧
       gp_titleLocale response = Some titleLocale ∧
       gp_contentSections response = Some contentSections ∧
       gp_contentLocale response = Some contentLocale ∧
       gp_resultLocale response = None) ∧
  (∀ titleLocale title w3 contentLocale contentSections w4 samples w5 judgeInfo w6,
     ps_getProblemLocalizedTitle problem locale w2 = (Fulfilled (titleLocale, title), w3) →
     ps_getProblemLocalizedContent problem locale w3
     = (Fulfilled (contentLocale, contentSections), w4) →
     ps_getProblemSamples problem w4 = (Fulfilled samples, w5) →
     ps_getProblemJudgeInfo problem w5 = (Fulfilled judgeInfo, w6) →
     ∃ response,
       fst run = Fulfilled response ∧
       gp_titleLocale response = Some titleLocale ∧
       gp_contentLocale response = Some contentLocale).
Proof.
  unfold problem_lookup. intros Hlookup Hcheck. unfold_controller. unfold_async.
  destruct (truthy (gpd_id request));
    [|destruct (truthy (gpd_displayId request)); [|discriminate Hlookup]];
    rewrite Hlookup; simpl; rewrite Hcheck; simpl;
    run_all; leaf_events;
    (split_and!;
      [ eexists; split; [reflexivity|]; intros ?; try discriminate; eexists; reflexivity
      | leaf_index
      | leaf_index
      | intros response Hresponse; try discriminate Hresponse;
        injection Hresponse as <-; simpl; do 6 eexists;
        (split; [reflexivity|]); (split; [eassumption|]); split_and!; reflexivity
      | intros; simplify_eq;
        repeat match goal with
          | Ha : ?x = _, Hb : ?x = _ |- _ => rewrite Ha in Hb; simplify_eq
          end;
        eexists; split_and!; reflexivity ]).
Qed.

End ProblemControllerProperties.

(** C7: when [getProblemDetail] has found the problem and READ is granted,
    it asks for the localized title and for the localized content in two
    calls of their own, one each, both with the locale of the request; a
    response without error carries the locale the title call chose as
    titleLocale and the locale the content call chose as contentLocale (and
    no resultLocale).  The two can differ in one request: with a title in
    "en" only and contents in "fr" and "en", a request for "fr" gets
    titleLocale "en" and contentLocale "fr". *)
Theorem getProblemDetail_reports_both_locales :
  (∀ (Pl : Platform) (D : Deps Pl) (L : Type) (currentUser : option UserEntity)
     (request : GetProblemDetailRequestDto) (problem : ProblemEntity)
     (m : Machine L) (w1 w2 : World),
     problem_lookup request (world m) = (Fulfilled (Some problem), w1) →
     ps_userHasPermission currentUser READ (Some problem) w1 = (Fulfilled true, w2) →
     let run := getProblemDetail currentUser request m in
     let evs := events_since m (snd run) in
     let locale := gpd_locale request in
     (∃ r1, evs !! 2%nat = Some (Ev (PS_getProblemLocalizedTitle problem locale) r1) ∧
            (r1 = Done →
             ∃ r2, evs !! 3%nat
                   = Some (Ev (PS_getProblemLocalizedContent problem locale) r2))) ∧
     (∀ i p l r, evs !! i = Some (Ev (PS_getProblemLocalizedTitle p l) r) → i = 2%nat) ∧
     (∀ i p l r, evs !! i = Some (Ev (PS_getProblemLocalizedContent p l) r) → i = 3%nat) ∧
     (∀ response, fst run = Fulfilled response →
        ∃ titleLocale title w3 contentLocale contentSections w4,
          ps_getProblemLocalizedTitle problem locale w2
          = (Fulfilled (titleLocale, title), w3) ∧
          ps_getProblemLocalizedContent problem locale w3
          = (Fulfilled (contentLocale, contentSections), w4) ∧
          gp_error response = None ∧
          gp_title response = Some title ∧
          gp_titleLocale response = Some titleLocale ∧
          gp_contentSections response = Some contentSections ∧
          gp_contentLocale response = Some contentLocale ∧
          gp_resultLocale response = None)) ∧
  (∃ response,
     fst (getProblemDetail (Some Testbed.bob)
            (mkGetProblemDetailRequestDto (Some "10") None "fr")
            (boot tt Testbed.db0))
     = Fulfilled response ∧
     gp_titleLocale response = Some "en" ∧
     gp_contentLocale response = Some "fr").
Proof.
  split.
  - intros Pl D L currentUser request problem m w1 w2 Hlookup Hcheck.
    destruct (getProblemDetail_locales currentUser request problem m w1 w2 Hlookup Hcheck)
      as (H1 & H2 & H3 & H4 & _).
    done.
  - eexists. split_and!; reflexivity.
Qed.

(** * Further properties *)

(** ** The user service *)

Section UserServiceFurther.
Context {Pl : Platform} {D : Deps Pl}.

Lemma object_fromEntries_last (records : list UserEntity) (k : Z) :
  object_fromEntries ((fun record => (user_id record, record)) <$> records) !! k
  = last_with_id records k.
Proof.
  unfold last_with_id.
  induction records as [|x records IH] using rev_ind.
  - unfold object_fromEntries. simpl. apply lookup_empty.
  - rewrite object_fromEntries_snoc, rev_app_distr. simpl.
    destruct (Z.eqb_spec (user_id x) k) as [<-|Hne].
    + by rewrite lookup_insert_eq.
    + by rewrite lookup_insert_ne.
Qed.

(** X1: whatever the repository answers, slot [i] of the result of
    [findUsersByExistingIds] is the last record of the answer whose id is
    the [i]-th input id, or undefined when the answer has none: a defined
    slot holds a record of the answer with the id asked for, equal ids get
    the same record, and rows the repository returns unasked are dropped.
    When the repository rejects, so does the call. *)
Theorem findUsersByExistingIds_last_record_wins {L} (userIds : list Z) (m : Machine L) :
  userIds ≠ [] →
  match fst (repo_findByIds (array_from_set userIds) (world m)) with
  | Rejected e => fst (findUsersByExistingIds userIds m) = Rejected e
  | Fulfilled records =>
      ∃ result,
        fst (findUsersByExistingIds userIds m) = Fulfilled result ∧
        result = last_with_id records <$> userIds ∧
        (∀ i userId r, userIds !! i = Some userId → result !! i = Some (Some r) →
           r ∈ records ∧ user_id r = userId) ∧
        (∀ i userId, userIds !! i = Some userId →
           (result !! i = Some None ↔ ∀ r, r ∈ records → user_id r ≠ userId)) ∧
        (∀ i j userId, userIds !! i = Some userId → userIds !! j = Some userId →
           result !! i = result !! j)
  end.
Proof.
  intros Hne. unfold findUsersByExistingIds.
  destruct (decide (length userIds = 0%nat)) as [Hlen|_]; [by destruct userIds|].
  unfold userRepository_findByIds. unfold_async.
  destruct (repo_findByIds (array_from_set userIds) (world m)) as [[records|e] w'];
    simpl; [|done].
  eexists. split; [reflexivity|].
  assert ((fun userId =>
             object_fromEntries ((fun record => (user_id record, record)) <$> records)
               !! userId) <$> userIds
          = last_with_id records <$> userIds) as ->.
  { apply list_fmap_ext. intros i x _. apply object_fromEntries_last. }
  split; [reflexivity|].
  assert (∀ i userId, userIds !! i = Some userId →
            (last_with_id records <$> userIds) !! i = Some (last_with_id records userId))
    as Hslot.
  { intros i userId Hi. by rewrite list_lookup_fmap, Hi. }
  split_and!.
  - intros i userId r Hi Hr. rewrite (Hslot _ _ Hi) in Hr. injection Hr as Hr.
    unfold last_with_id in Hr. apply List.find_some in Hr as [Hin Hid].
    apply Z.eqb_eq in Hid. split; [|done].
    apply list_elem_of_In. by apply in_rev.
  - intros i userId Hi. rewrite (Hslot _ _ Hi). split.
    + intros [= Hnone] r Hr Hid. unfold last_with_id in Hnone.
      apply list_elem_of_In, in_rev in Hr.
      pose proof (List.find_none _ _ Hnone r Hr) as H. simpl in H.
      apply Z.eqb_neq in H. done.
    + intros Hall. f_equal. unfold last_with_id.
      destruct (List.find _ (rev records)) as [r|] eqn:Hfind; [|done].
      apply List.find_some in Hfind as [Hin Hid]. apply Z.eqb_eq in Hid.
      exfalso. eapply Hall; [|exact Hid]. apply list_elem_of_In. by apply in_rev.
  - intros i j userId Hi Hj. by rewrite (Hslot _ _ Hi), (Hslot _ _ Hj).
Qed.

(** X2: on a directory that answers [findOne] and [findByIds] from the same
    rows, the batch lookup agrees with the single one: slot [i] of the
    result of [findUsersByExistingIds] is what [findUserById] returns for
    the [i]-th id.  Removing duplicates before the query and spreading the
    records over the slots afterwards changes nothing for the caller. *)
Theorem findUsersByExistingIds_agrees_with_findUserById {L}
    (table : gmap Z UserEntity) (userIds : list Z) (m : Machine L)
    (records : list UserEntity) :
  keyed table →
  (∀ id, repo_findOne id (world m) = (Fulfilled (table !! id), world m)) →
  repo_findByIds (array_from_set userIds) (world m) = (Fulfilled records, world m) →
  answers table (array_from_set userIds) records →
  ∃ result,
    fst (findUsersByExistingIds userIds m) = Fulfilled result ∧
    Forall2 (fun userId slot => fst (findUserById userId m) = Fulfilled slot) userIds result ∧
    world (snd (findUsersByExistingIds userIds m)) = world m.
Proof.
  intros Hkey Hone Hrepo Hans.
  assert (∀ id, fst (findUserById id m) = Fulfilled (table !! id)) as Hsingle.
  { intros id. unfold findUserById, userRepository_findOne. unfold_async.
    by rewrite Hone. }
  unfold findUsersByExistingIds.
  destruct (decide (length userIds = 0%nat)) as [Hlen|Hlen].
  { destruct userIds; [|done]. exists []. split_and!; [done|constructor|done]. }
  unfold userRepository_findByIds. unfold_async. rewrite Hrepo. simpl.
  eexists. split_and!; [reflexivity| |reflexivity].
  apply Forall2_fmap_r, Forall_Forall2_diag, Forall_forall.
  intros id Hid. rewrite Hsingle. f_equal. symmetry.
  eapply object_fromEntries_answers; [done..|]. by apply elem_of_array_from_set.
Qed.

(** X3: [getUserMeta] asks the privilege service only when the answer
    matters: the email is not public, somebody is signed in, and it is not
    the user themselves.  Then it asks once, about the current user and
    MANAGE_USER, and a rejection of that call rejects [getUserMeta]; in every
    other case it calls nothing, leaves the world as it is and returns. *)
Theorem getUserMeta_asks_privilege_when_needed {L}
    (user : UserEntity) (currentUser : option UserEntity) (m : Machine L) :
  let run := getUserMeta user currentUser m in
  let evs := events_since m (snd run) in
  (user_publicEmail user = true ∨ currentUser = None ∨
   (∃ c, currentUser = Some c ∧ user_id c = user_id user) →
     evs = [] ∧ world (snd run) = world m ∧ ∃ r, fst run = Fulfilled r) ∧
  (∀ c, user_publicEmail user = false → currentUser = Some c →
        user_id c ≠ user_id user →
     ∃ reply, evs = [Ev (Priv_userHasPrivilege c MANAGE_USER) reply] ∧
              (∀ e, reply = Threw e ↔ fst run = Rejected e) ∧
              (∀ b, reply = Answered b ↔
                    fst run = Fulfilled
                      (mkUserMetaDto (user_id user) (user_username user)
                         (if b then Some (user_email user) else None)
                         (md5_hex (toLowerCase (trim (user_email user)))) (user_bio user)
                         (user_sexIsFamale user) (user_organization user)
                         (user_location user) (user_isAdmin user)
                         (user_acceptedProblemCount user) (user_submissionCount user)
                         (user_rating user) (user_registrationTime user)))) ∧
  (∀ ev, ev ∈ evs →
     ∃ c reply, currentUser = Some c ∧ ev = Ev (Priv_userHasPrivilege c MANAGE_USER) reply) ∧
  (length evs ≤ 1)%nat.
Proof.
  unfold getUserMeta, userPrivilegeService_userHasPrivilege, events_since.
  unfold_async.
  destruct (user_publicEmail user) eqn:Hpub; simpl.
  { rewrite drop_all. split_and!; [eauto|discriminate| |simpl; lia].
    intros ev Hev. by apply elem_of_nil in Hev. }
  destruct currentUser as [c|]; simpl.
  2:{ rewrite drop_all. split_and!; [eauto|discriminate| |simpl; lia].
      intros ev Hev. by apply elem_of_nil in Hev. }
  destruct (decide (user_id c = user_id user)) as [Hid|Hid]; simpl.
  { rewrite drop_all. split_and!; [eauto| | |simpl; lia].
    - intros c' _ [= <-] Hne. done.
    - intros ev Hev. by apply elem_of_nil in Hev. }
  destruct (priv_userHasPrivilege c MANAGE_USER (world m)) as [[b|e] w'] eqn:E; simpl;
    rewrite drop_app_length.
  - split_and!; [|..|simpl; lia].
    + intros [?|[?|(c' & [= <-] & ?)]]; done.
    + intros c' _ [= <-] _. eexists. split; [reflexivity|].
      split; [split; discriminate|].
      intros b'. split; [by intros [= <-]|]. destruct b, b'; simpl; congruence.
    + intros ev Hev. apply list_elem_of_singleton in Hev as ->. eauto.
  - split_and!; [|..|simpl; lia].
    + intros [?|[?|(c' & [= <-] & ?)]]; done.
    + intros c' _ [= <-] _. eexists. split; [reflexivity|].
      split; [split; congruence|]. split; discriminate.
    + intros ev Hev. apply list_elem_of_singleton in Hev as ->. eauto.
Qed.

(** X4: who is asking changes nothing of the DTO but its email field: every
    result of [getUserMeta] for [user] is the DTO of [user] (id, username,
    hash, bio, sexIsFamale, organization, location, isAdmin, the three
    counters, registrationTime) with an email field that is null or the
    email of [user].  So two results for the same user, for any two viewers
    in any two worlds, differ in the email field at most. *)
Theorem getUserMeta_viewer_changes_email_only {L1 L2}
    (user : UserEntity) (viewer1 viewer2 : option UserEntity)
    (m1 : Machine L1) (m2 : Machine L2) :
  (∀ r, fst (getUserMeta user viewer1 m1) = Fulfilled r →
     without_email r = public_meta user ∧
     (meta_email r = None ∨ meta_email r = Some (user_email user))) ∧
  (∀ r1 r2,
     fst (getUserMeta user viewer1 m1) = Fulfilled r1 →
     fst (getUserMeta user viewer2 m2) = Fulfilled r2 →
     without_email r1 = without_email r2).
Proof.
  assert (∀ L (viewer : option UserEntity) (m : Machine L) r,
            fst (getUserMeta user viewer m) = Fulfilled r →
            without_email r = public_meta user ∧
            (meta_email r = None ∨ meta_email r = Some (user_email user))) as Hone.
  { intros L viewer m r.
    unfold getUserMeta, userPrivilegeService_userHasPrivilege. unfold_async.
    destruct (user_publicEmail user); simpl; [intros [= <-]; simpl; auto|].
    destruct viewer as [c|]; simpl; [|intros [= <-]; simpl; auto].
    destruct (decide (user_id c = user_id user)); simpl; [intros [= <-]; simpl; auto|].
    destruct (priv_userHasPrivilege c MANAGE_USER (world m)) as [[[]|e] w']; simpl;
      intros [= <-]; simpl; auto. }
  split; [apply Hone|].
  intros r1 r2 H1 H2.
  destruct (Hone _ _ _ _ H1) as [-> _]. destruct (Hone _ _ _ _ H2) as [-> _]. done.
Qed.

Ltac unfold_profile :=
  unfold updateUserProfile_catch, checkUsernameAvailability, checkEmailAvailability,
    userRepository_count_username, userRepository_count_email in *.

(** X5: the answers of [updateUserProfile] are earned.  It returns [null]
    exactly when the write went through; DUPLICATE_USERNAME only when the
    write was refused, a username was supplied and the count of that username
    came back non-zero; DUPLICATE_EMAIL only when the write was refused, the
    username was not supplied or counted zero, an email was supplied and the
    count of that email came back non-zero. *)
Theorem updateUserProfile_answers_earned
    (username email : option string) (publicEmail : bool) (password : option string)
    (information : UserInformation) (m : Machine UserEntity) :
  let run := updateUserProfile username email publicEmail password information m in
  let attempt := updateUserProfile_try username email publicEmail password information m in
  (fst run = Fulfilled None ↔ fst attempt = Fulfilled tt) ∧
  (fst run = Fulfilled (Some DUPLICATE_USERNAME) →
     ∃ e v, fst attempt = Rejected e ∧ username = Some v ∧
            username_taken v (world (snd attempt))) ∧
  (fst run = Fulfilled (Some DUPLICATE_EMAIL) →
     ∃ e v w2, fst attempt = Rejected e ∧
               username_clear username (world (snd attempt)) w2 ∧
               email = Some v ∧ email_taken v w2).
Proof.
  simpl. rewrite updateUserProfile_unfold.
  destruct (updateUserProfile_try _ _ _ _ _ m) as [[[]|e] m1]; simpl.
  { split_and!; [done|discriminate..]. }
  unfold username_taken, email_taken, username_clear.
  unfold_profile. unfold_async.
  destruct username as [u|], email as [a|]; simpl;
    repeat (settle_call; try match goal with n : nat |- _ => destruct n; simpl end);
    (split_and!; [split; discriminate| |]); intros Hout; try discriminate Hout;
    eauto 10.
Qed.

(** X6: when an availability check itself fails, its error is what
    [updateUserProfile] rejects with: the error of the refused write is
    dropped. *)
Theorem updateUserProfile_failed_check_masks_error
    (username email : option string) (publicEmail : bool) (password : option string)
    (information : UserInformation) (m m1 : Machine UserEntity) (e : exn) :
  updateUserProfile_try username email publicEmail password information m
    = (Rejected e, m1) →
  let run := updateUserProfile username email publicEmail password information m in
  (∀ v e' w', username = Some v →
     repo_count_username v (world m1) = (Rejected e', w') →
     fst run = Rejected e' ∧
     events_since m1 (snd run) = [Ev (Repo_count_username v) (Threw e')]) ∧
  (∀ v e' w2 w', username_clear username (world m1) w2 → email = Some v →
     repo_count_email v w2 = (Rejected e', w') →
     fst run = Rejected e').
Proof.
  intros Htry. simpl. rewrite updateUserProfile_unfold, Htry.
  unfold username_clear, events_since. unfold_profile. unfold_async. split.
  - intros v e' w' -> Hcount. rewrite Hcount. simpl. by rewrite drop_app_length.
  - intros v e' w2 w' Hclear -> Hcount.
    destruct username as [u|]; simpl in *.
    + rewrite Hclear. simpl. by rewrite Hcount.
    + subst w2. by rewrite Hcount.
Qed.

Lemma updateUserProfile_catch_counts (username email : option string) (e : exn)
    (m1 : Machine UserEntity) :
  ∃ checks,
    trace (snd (updateUserProfile_catch username email e m1)) = trace m1 ++ checks ∧
    counts_supplied username email checks.
Proof.
  unfold counts_supplied. unfold_profile. unfold_async.
  destruct username as [u|], email as [a|]; simpl;
    repeat (settle_call; try match goal with n : nat |- _ => destruct n; simpl end);
    rewrite <- ?app_assoc; simpl;
    first
      [ exists []; split; [symmetry; apply app_nil_r|];
        exists [], []; split_and!; [reflexivity|by left|by left]
      | eexists [_]; split; [reflexivity|];
        first [ eexists [_], []; split_and!; [reflexivity|right; by eauto|by left]
              | eexists [], [_]; split_and!; [reflexivity|by left|right; by eauto] ]
      | eexists [_; _]; split; [reflexivity|];
        eexists [_], [_]; split_and!; [reflexivity|right; by eauto|right; by eauto] ].
Qed.

(** X7: without a new password [updateUserProfile] opens no transaction and
    never calls the auth service: it makes one plain save of the assigned
    entity and, only if that save is refused, the counts of the catch block.
    Those count the supplied username and the supplied email and nothing
    else, each at most once, so the method makes at most three calls. *)
Theorem updateUserProfile_without_password
    (username email : option string) (publicEmail : bool)
    (information : UserInformation) (m : Machine UserEntity) :
  let run := updateUserProfile username email publicEmail None information m in
  let user := assigned (frame m) username email publicEmail information in
  let evs := events_since m (snd run) in
  ∃ r checks,
    evs = Ev (Repo_save user) r :: checks ∧
    (r = Done ↔ fst run = Fulfilled None) ∧
    (r = Done → checks = []) ∧
    counts_supplied username email checks ∧
    (length evs ≤ 3)%nat.
Proof.
  simpl. rewrite updateUserProfile_unfold.
  destruct (updateUserProfile_try_plain username email publicEmail information m)
    as (_ & r & Htrace & Hr).
  destruct (updateUserProfile_try _ _ _ _ _ m) as [[[]|e] m1] eqn:Htry; simpl in *.
  - destruct Hr as [[-> _]|(e & _ & He)]; [|discriminate He].
    rewrite (events_since_app _ _ _ Htrace).
    exists Done, []. split_and!; [done..| |simpl; lia].
    exists [], []. split_and!; [reflexivity|by left|by left].
  - destruct Hr as [[_ Hr]|(e' & -> & _)]; [discriminate Hr|].
    destruct (updateUserProfile_catch_counts username email e m1) as (checks & Hc & Hs).
    rewrite (events_since_app m _ (Ev (Repo_save (assigned (frame m) username email
                                                     publicEmail information))
                                      (Threw e') :: checks))
      by (by rewrite Hc, Htrace, <- app_assoc).
    exists (Threw e'), checks. split_and!; [done| |done|done|].
    + split; [discriminate|]. intros Hnull.
      destruct (updateUserProfile_catch_runs username email e m1) as (?&?&?&?&?&Hne).
      done.
    + destruct Hs as (cu & ce & -> & [-> |(?&?&_&->)] & [-> |(?&?&_&->)]); simpl; lia.
Qed.

(** X18: two calls of [updateUserProfile] on the same entity object, one
    after the other and whatever each of them returns, leave the object as
    one call would whose username (email) is that of the second call when it
    supplies one and that of the first call otherwise, with publicEmail and
    the information of the second call.  In particular a call repeated with
    the same arguments changes nothing of the object. *)
Theorem updateUserProfile_twice
    (username1 email1 : option string) (publicEmail1 : bool) (password1 : option string)
    (information1 : UserInformation)
    (username2 email2 : option string) (publicEmail2 : bool) (password2 : option string)
    (information2 : UserInformation) (m : Machine UserEntity) :
  let first := updateUserProfile username1 email1 publicEmail1 password1 information1 m in
  let second :=
    updateUserProfile username2 email2 publicEmail2 password2 information2 (snd first) in
  frame (snd second)
  = assigned (frame m)
      (match username2 with Some v => Some v | None => username1 end)
      (match email2 with Some v => Some v | None => email1 end)
      publicEmail2 information2 ∧
  frame (snd (updateUserProfile username1 email1 publicEmail1 password1 information1
                (snd first)))
  = frame (snd first).
Proof.
  simpl.
  rewrite !(proj1 (updateUserProfile_saves_assigned _ _ _ _ _ _)).
  unfold assigned.
  destruct username1, username2, email1, email2; simpl; split; reflexivity.
Qed.

(** X19: what [updateUserProfile] assigned is what [getUserMeta] shows
    next, whether the store took the write or not.  For the entity object
    after a call, [getUserMeta] for an anonymous viewer returns without
    calling anything, with the id the entity had, the username and the email
    of the call where supplied (the old ones otherwise), the email shown
    exactly when the call set publicEmail, and bio, sexIsFamale,
    organization and location of the call.  A viewer with the id of the
    entity is shown the email either way: the call never changes the id. *)
Theorem getUserMeta_after_updateUserProfile {L}
    (username email : option string) (publicEmail : bool) (password : option string)
    (information : UserInformation) (m : Machine UserEntity) (viewing : Machine L) :
  let run := updateUserProfile username email publicEmail password information m in
  let seen := getUserMeta (frame (snd run)) None viewing in
  ∃ r,
    seen = (Fulfilled r, viewing) ∧
    meta_id r = user_id (frame m) ∧
    meta_username r = default (user_username (frame m)) username ∧
    meta_email r
    = (if publicEmail then Some (default (user_email (frame m)) email) else None) ∧
    meta_gravatarEmailHash r
    = md5_hex (toLowerCase (trim (default (user_email (frame m)) email))) ∧
    meta_bio r = info_bio information ∧
    meta_sexIsFamale r = info_sexIsFamale information ∧
    meta_organization r = info_organization information ∧
    meta_location r = info_location information ∧
    ∀ c, user_id c = user_id (frame m) →
      ∃ r', getUserMeta (frame (snd run)) (Some c) viewing = (Fulfilled r', viewing) ∧
            meta_email r' = Some (default (user_email (frame m)) email).
Proof.
  simpl.
  rewrite (proj1 (updateUserProfile_saves_assigned _ _ _ _ _ _)).
  unfold getUserMeta, assigned. unfold_async.
  destruct publicEmail; simpl; eexists; (split_and!; [reflexivity..|]);
    intros c Hc; try destruct (decide _) as [_|Hne]; try done;
    eexists; split; reflexivity.
Qed.

End UserServiceFurther.

(** ** The problem controller *)

Section ProblemControllerFurther.
Context {Pl : Platform} {D : Deps Pl}.

Ltac unfold_endpoints :=
  unfold create, updateStatement, getProblemDetail, setProblemPermissions,
    problemService_findProblemById, problemService_findProblemByDisplayId,
    problemService_userHasPermission, problemService_createProblem,
    problemService_updateProblemStatement, problemService_getProblemLocalizedTitle,
    problemService_getProblemLocalizedContent, problemService_getProblemSamples,
    problemService_getProblemJudgeInfo, problemService_setProblemPermissions,
    groupService_findGroupById, findUserById, userRepository_findOne,
    getProblemDetail_error in *.

Ltac events_of_leaf :=
  unfold events_since; simpl; rewrite <- ?app_assoc, ?drop_app_length, ?drop_all; simpl.

(** Look at each position of a short, explicit list of events. *)
Ltac each_position Hi :=
  repeat match type of Hi with
    | (_ :: _) !! ?i = Some _ => destruct i as [|i]; simpl in Hi
    end;
  try (by rewrite lookup_nil in Hi).

(** *** [create] *)

(** X8: [create] calls [createProblem] only after the CREATE check of the
    current user answered true, and with the current user, the type and the
    statement of the request.  Its response has an error or an id, never
    both: PERMISSION_DENIED when the check answered false (the check is then
    the only call), FAILED when [createProblem] returned nothing, and
    otherwise the id of the problem that [createProblem] returned. *)
Theorem create_outcome {L} (currentUser : option UserEntity)
    (request : CreateProblemRequestDto) (m : Machine L) :
  let run := create currentUser request m in
  let evs := events_since m (snd run) in
  let check := PS_userHasPermission currentUser CREATE None in
  let creation := PS_createProblem currentUser (cpr_type request) (cpr_statement request) in
  (∀ i owner type statement r,
     evs !! i = Some (Ev (PS_createProblem owner type statement) r) →
     i = 1%nat ∧ evs !! 0%nat = Some (Ev check (Answered true)) ∧
     PS_createProblem owner type statement = creation) ∧
  (∀ response, fst run = Fulfilled response →
     match cp_error response with
     | Some CreateProblemResponseError.PERMISSION_DENIED =>
         evs = [Ev check (Answered false)] ∧ cp_id response = None
     | Some CreateProblemResponseError.FAILED =>
         evs = [Ev check (Answered true); Ev creation Missing] ∧ cp_id response = None
     | None =>
         evs = [Ev check (Answered true); Ev creation Found] ∧
         ∃ w1 problem,
           ps_userHasPermission currentUser CREATE None (world m) = (Fulfilled true, w1) ∧
           ps_createProblem currentUser (cpr_type request) (cpr_statement request) w1
           = (Fulfilled (Some problem), world (snd run)) ∧
           cp_id response = Some (problem_id problem)
     end).
Proof.
  unfold_endpoints. unfold_async.
  run_all; events_of_leaf;
    (split;
      [ intros i ? ? ? ? Hi; each_position Hi; simplify_eq; done
      | intros response Hresponse; try discriminate Hresponse;
        injection Hresponse as <-; simpl; eauto 10 ]).
Qed.

(** *** [updateStatement] *)

(** X9: [updateStatement] calls [updateProblemStatement] only as its third
    call, on the problem that the lookup by [request.problemId] returned,
    after the WRITE check of the current user on that problem answered true,
    and with the request.  Its response tells how far it got:
    NO_SUCH_PROBLEM after a lookup that found nothing, PERMISSION_DENIED
    after a check that answered false, FAILED after an update that answered
    false, and no error only after an update that answered true. *)
Theorem updateStatement_outcome {L} (currentUser : option UserEntity)
    (request : UpdateProblemStatementRequestDto) (m : Machine L) :
  let run := updateStatement currentUser request m in
  let evs := events_since m (snd run) in
  let lookup := PS_findProblemById (upr_problemId request) in
  let check p := PS_userHasPermission currentUser WRITE (Some p) in
  let update p := PS_updateProblemStatement p (upr_problemId request) (upr_body request) in
  (∀ i p id body r,
     evs !! i = Some (Ev (PS_updateProblemStatement p id body) r) →
     i = 2%nat ∧
     evs !! 0%nat = Some (Ev lookup Found) ∧
     evs !! 1%nat = Some (Ev (check p) (Answered true)) ∧
     PS_updateProblemStatement p id body = update p ∧
     ∃ w1, ps_findProblemById (upr_problemId request) (world m) = (Fulfilled (Some p), w1)) ∧
  (∀ response, fst run = Fulfilled response →
     match ups_error response with
     | Some UpdateProblemStatementResponseError.NO_SUCH_PROBLEM =>
         evs = [Ev lookup Missing]
     | Some UpdateProblemStatementResponseError.PERMISSION_DENIED =>
         ∃ p, evs = [Ev lookup Found; Ev (check p) (Answered false)]
     | Some UpdateProblemStatementResponseError.FAILED =>
         ∃ p, evs = [Ev lookup Found; Ev (check p) (Answered true);
                     Ev (update p) (Answered false)]
     | None =>
         ∃ p, evs = [Ev lookup Found; Ev (check p) (Answered true);
                     Ev (update p) (Answered true)]
     end).
Proof.
  unfold_endpoints. unfold_async.
  run_all; events_of_leaf;
    (split;
      [ intros i ? ? ? ? Hi; each_position Hi; simplify_eq; eauto 10
      | intros response Hresponse; try discriminate Hresponse;
        injection Hresponse as <-; simpl; eauto 10 ]).
Qed.

(** *** [getProblemDetail] *)

(** X10: [getProblemDetail] looks the problem up at most once, as its first
    call: by [request.id] when that is a non-empty string, whatever
    [request.displayId] is; by [request.displayId] when [request.id] is absent
    or empty and [request.displayId] is a non-empty string; and not at all
    when both are absent or empty, in which case it makes no call. *)
Theorem getProblemDetail_lookup_by_id_first {L} (currentUser : option UserEntity)
    (request : GetProblemDetailRequestDto) (m : Machine L) :
  let run := getProblemDetail currentUser request m in
  let evs := events_since m (snd run) in
  (∀ i ev, evs !! i = Some ev → is_problem_lookup ev → i = 0%nat) ∧
  (truthy (gpd_id request) = true →
     ∃ r, evs !! 0%nat
          = Some (Ev (PS_findProblemById (parseInt (default "" (gpd_id request)))) r)) ∧
  (truthy (gpd_id request) = false → truthy (gpd_displayId request) = true →
     ∃ r, evs !! 0%nat
          = Some (Ev (PS_findProblemByDisplayId
                        (parseInt (default "" (gpd_displayId request)))) r)) ∧
  (truthy (gpd_id request) = false → truthy (gpd_displayId request) = false →
     evs = []).
Proof.
  unfold is_problem_lookup. unfold_endpoints. unfold_async.
  destruct (truthy (gpd_id request)) eqn:Hid;
    [|destruct (truthy (gpd_displayId request)) eqn:Hdisplay];
    run_all; events_of_leaf;
    (split_and!;
      [ intros i ev Hi [[? Hc]|[? Hc]]; each_position Hi; simplify_eq;
        simpl in Hc; try discriminate Hc; done
      | try discriminate; intros _; eexists; reflexivity
      | try discriminate; intros _; try discriminate; intros _; eexists; reflexivity
      | try discriminate; intros _; try discriminate; intros _; reflexivity ]).
Qed.

(** X11: [getProblemDetail] reads nothing of a problem (title, content,
    samples, judge info) before the READ check of the current user on that
    very problem answered true, as the second call, after a lookup that
    found the problem.  A response with an error carries the error and
    nothing else, and the request read no content. *)
Theorem getProblemDetail_reads_after_permission {L} (currentUser : option UserEntity)
    (request : GetProblemDetailRequestDto) (m : Machine L) :
  let run := getProblemDetail currentUser request m in
  let evs := events_since m (snd run) in
  (∀ i ev p, evs !! i = Some ev → reads_content ev p →
     (1 < i)%nat ∧
     (∃ lookup, evs !! 0%nat = Some lookup ∧ is_problem_lookup lookup ∧
                ev_reply lookup = Found) ∧
     evs !! 1%nat = Some (Ev (PS_userHasPermission currentUser READ (Some p))
                             (Answered true))) ∧
  (∀ response err, fst run = Fulfilled response → gp_error response = Some err →
     gp_meta response = None ∧ gp_title response = None ∧
     gp_titleLocale response = None ∧ gp_resultLocale response = None ∧
     gp_samples response = None ∧ gp_contentSections response = None ∧
     gp_contentLocale response = None ∧ gp_judgeInfo response = None ∧
     ∀ ev p, ev ∈ evs → ¬ reads_content ev p).
Proof.
  unfold reads_content, is_problem_lookup. unfold_endpoints. unfold_async.
  destruct (truthy (gpd_id request)) eqn:Hid;
    [|destruct (truthy (gpd_displayId request)) eqn:Hdisplay];
    run_all; events_of_leaf;
    (split;
      [ intros idx evt prob Hi Hread; each_position Hi; simplify_eq; simpl in Hread;
        destruct Hread as [[? Hc]|[[? Hc]|[Hc|Hc]]]; try discriminate Hc;
        injection Hc as <-; (split; [lia|]); (split; [|reflexivity]);
        eexists; (split; [reflexivity|]); simpl; eauto
      | intros response err Hresponse Herr; try discriminate Hresponse;
        injection Hresponse as <-; simpl in Herr; try discriminate Herr;
        split_and!; try reflexivity;
        intros evt prob Hev Hread; by_membership Hev; subst evt; simpl in Hread;
        destruct Hread as [[? Hc]|[[? Hc]|[Hc|Hc]]]; discriminate Hc ]).
Qed.

(** X12: a response of [getProblemDetail] without error was put together
    from six calls, in this order and each on the world the one before left:
    the lookup, the READ check, title, content, samples, judge info.  Its
    [meta] holds id, displayId, type, isPublic, ownerId and locales of the
    problem the lookup returned, and its title, content sections, samples and
    judge info are what the four reads returned. *)
Theorem getProblemDetail_response {L} (currentUser : option UserEntity)
    (request : GetProblemDetailRequestDto) (m : Machine L) :
  let run := getProblemDetail currentUser request m in
  let evs := events_since m (snd run) in
  let locale := gpd_locale request in
  ∀ response, fst run = Fulfilled response → gp_error response = None →
    ∃ problem w1 w2 titleLocale title w3 contentLocale contentSections w4 samples w5
      judgeInfo lookup,
      problem_lookup request (world m) = (Fulfilled (Some problem), w1) ∧
      ps_userHasPermission currentUser READ (Some problem) w1 = (Fulfilled true, w2) ∧
      ps_getProblemLocalizedTitle problem locale w2 = (Fulfilled (titleLocale, title), w3) ∧
      ps_getProblemLocalizedContent problem locale w3
      = (Fulfilled (contentLocale, contentSections), w4) ∧
      ps_getProblemSamples problem w4 = (Fulfilled samples, w5) ∧
      ps_getProblemJudgeInfo problem w5 = (Fulfilled judgeInfo, world (snd run)) ∧
      is_problem_lookup lookup ∧
      evs = [lookup;
             Ev (PS_userHasPermission currentUser READ (Some problem)) (Answered true);
             Ev (PS_getProblemLocalizedTitle problem locale) Done;
             Ev (PS_getProblemLocalizedContent problem locale) Done;
             Ev (PS_getProblemSamples problem) Done;
             Ev (PS_getProblemJudgeInfo problem) Done] ∧
      gp_meta response = Some (meta_of problem) ∧
      gp_title response = Some title ∧
      gp_contentSections response = Some contentSections ∧
      gp_samples response = Some samples ∧
      gp_judgeInfo response = Some judgeInfo.
Proof.
  unfold problem_lookup, is_problem_lookup, meta_of. unfold_endpoints. unfold_async.
  destruct (truthy (gpd_id request)) eqn:Hid;
    [|destruct (truthy (gpd_displayId request)) eqn:Hdisplay];
    run_all; events_of_leaf;
    intros response Hresponse Herr; try discriminate Hresponse;
    injection Hresponse as <-; simpl in Herr; try discriminate Herr;
    do 13 eexists;
    split_and!; try eassumption; try reflexivity;
    simpl; eauto.
Qed.

(** *** [setProblemPermissions] *)

Lemma lookups_none (call : Z → Call) (ids : list Z) (evs : list Event) :
  lookups call ids evs None → evs = (fun id => Ev (call id) Found) <$> ids.
Proof. by inversion 1. Qed.

(** X13: when the problem exists, CONTROL is granted and every user id and
    group id of the request is known, [setProblemPermissions] looks up each
    user id and then each group id, once per occurrence and in the order of
    the request, and then calls [problemService.setProblemPermissions] once,
    as its last call, with the problem found, the permission type of the
    request and the entities the lookups returned, in the order of the ids
    (an id named twice gives its entity twice).  The response is empty when
    that call returns, and the endpoint rejects when it rejects. *)
Theorem setProblemPermissions_grants_resolved_principals {L}
    (currentUser : option UserEntity) (request : SetProblemPermissionsRequestDto)
    (problem : ProblemEntity) (m : Machine L) (w1 w2 : World) :
  user_lookup_reads → group_lookup_reads →
  ps_findProblemById (spp_problemId request) (world m) = (Fulfilled (Some problem), w1) →
  ps_userHasPermission currentUser CONTROL (Some problem) w1 = (Fulfilled true, w2) →
  first_missing (users_at w2) (spp_userIds request) = None →
  first_missing (groups_at w2) (spp_groupIds request) = None →
  let run := setProblemPermissions currentUser request m in
  let evs := events_since m (snd run) in
  let users := omap (users_at w2) (spp_userIds request) in
  let groups := omap (groups_at w2) (spp_groupIds request) in
  let grant := PS_setProblemPermissions problem (spp_permissionType request) users groups in
  Forall2 (fun id user => users_at w2 id = Some user) (spp_userIds request) users ∧
  Forall2 (fun id group => groups_at w2 id = Some group) (spp_groupIds request) groups ∧
  (∃ r, evs = [Ev (PS_findProblemById (spp_problemId request)) Found;
               Ev (PS_userHasPermission currentUser CONTROL (Some problem)) (Answered true)]
              ++ ((fun id => Ev (Repo_findOne id) Found) <$> spp_userIds request)
              ++ ((fun id => Ev (GS_findGroupById id) Found) <$> spp_groupIds request)
              ++ [Ev grant r]) ∧
  fst run
  = match fst (ps_setProblemPermissions problem (spp_permissionType request) users groups w2)
    with
    | Fulfilled _ => Fulfilled (mkSetProblemPermissionsResponseDto None None)
    | Rejected e => Rejected e
    end.
Proof.
  intros Hu Hg G1 G2 HU HG. simpl.
  assert (∀ A (dir : Z → option A) ids,
            first_missing dir ids = None →
            Forall2 (fun id a => dir id = Some a) ids (omap dir ids)) as Hall.
  { intros A dir ids. unfold first_missing.
    induction ids as [|id ids IH]; simpl; [constructor|].
    destruct (dir id) as [a|] eqn:Hid; simpl; [|discriminate].
    intros H. constructor; auto. }
  split; [by apply Hall|]. split; [by apply Hall|].
  unfold setProblemPermissions.
  unfold problemService_findProblemById, problemService_userHasPermission,
    problemService_setProblemPermissions.
  unfold_async. rewrite G1. simpl. rewrite G2. simpl.
  match goal with |- context [resolveUsers ?ids ?us ?m2] =>
    destruct (resolveUsers_reads ids us m2 Hu) as [HwU HrU];
    destruct (resolveUsers_runs ids us m2) as (evsU & stopU & HtU & HlU & HoutU);
    destruct (resolveUsers ids us m2) as [ru m3]
  end.
  simpl in *. subst ru. rewrite HU in *.
  destruct stopU as [[id r]|]; [by destruct HoutU as [_ H]; destruct (H _ eq_refl)|].
  apply lookups_none in HlU. subst evsU.
  match goal with |- context [resolveGroups ?ids ?gs ?m4] =>
    destruct (resolveGroups_reads ids gs m4 Hg) as [HwG HrG];
    destruct (resolveGroups_runs ids gs m4) as (evsG & stopG & HtG & HlG & HoutG);
    destruct (resolveGroups ids gs m4) as [rg m5]
  end.
  simpl in *. subst rg. rewrite HwU in *. rewrite HG in *.
  destruct stopG as [[id r]|]; [by destruct HoutG as [_ H]; destruct (H _ eq_refl)|].
  apply lookups_none in HlG. subst evsG.
  rewrite HwG.
  destruct (ps_setProblemPermissions _ _ _ _ w2) as [[[]|e] w6]; simpl;
    (split; [|reflexivity]); eexists;
    unfold events_since; simpl; rewrite HtG, HtU, <- !app_assoc, drop_app_length;
    reflexivity.
Qed.

Lemma lookups_stop_inv (call : Z → Call) (ids : list Z) (evs : list Event)
    (id : Z) (r : Reply) :
  lookups call ids evs (Some (id, r)) →
  ∃ pre post, ids = pre ++ id :: post ∧
              evs = ((fun id => Ev (call id) Found) <$> pre) ++ [Ev (call id) r].
Proof. inversion 1; subst. eauto. Qed.

(** X14: what a response of [setProblemPermissions] says about the run, with
    nothing assumed about the collaborators.  NO_SUCH_PROBLEM carries the
    problem id of the request, after a lookup that found nothing.
    PERMISSION_DENIED carries no id.  NO_SUCH_USER carries a user id of the
    request, the one whose lookup was the last call and found nothing, after
    every user id before it was found.  NO_SUCH_GROUP carries such a group
    id, after every user id of the request and every group id before it was
    found.  A response without error carries no id and follows a call of
    [problemService.setProblemPermissions] that returned, after every user
    id and every group id of the request was found. *)
Theorem setProblemPermissions_response {L}
    (currentUser : option UserEntity) (request : SetProblemPermissionsRequestDto)
    (m : Machine L) :
  let run := setProblemPermissions currentUser request m in
  let evs := events_since m (snd run) in
  let guards p :=
    [Ev (PS_findProblemById (spp_problemId request)) Found;
     Ev (PS_userHasPermission currentUser CONTROL (Some p)) (Answered true)] in
  let all_found call ids := (fun id => Ev (call id) Found) <$> ids in
  ∀ response, fst run = Fulfilled response →
    match spp_error response with
    | Some SetProblemPermissionsResponseError.NO_SUCH_PROBLEM =>
        spp_errorObjectId response = Some (spp_problemId request) ∧
        evs = [Ev (PS_findProblemById (spp_problemId request)) Missing]
    | Some SetProblemPermissionsResponseError.PERMISSION_DENIED =>
        spp_errorObjectId response = None ∧
        ∃ p, evs = [Ev (PS_findProblemById (spp_problemId request)) Found;
                    Ev (PS_userHasPermission currentUser CONTROL (Some p)) (Answered false)]
    | Some SetProblemPermissionsResponseError.NO_SUCH_USER =>
        ∃ p pre id post,
          spp_userIds request = pre ++ id :: post ∧
          spp_errorObjectId response = Some id ∧
          evs = guards p ++ all_found Repo_findOne pre ++ [Ev (Repo_findOne id) Missing]
    | Some SetProblemPermissionsResponseError.NO_SUCH_GROUP =>
        ∃ p pre id post,
          spp_groupIds request = pre ++ id :: post ∧
          spp_errorObjectId response = Some id ∧
          evs = guards p ++ all_found Repo_findOne (spp_userIds request)
                ++ all_found GS_findGroupById pre ++ [Ev (GS_findGroupById id) Missing]
    | None =>
        spp_errorObjectId response = None ∧
        ∃ p users groups,
          evs = guards p ++ all_found Repo_findOne (spp_userIds request)
                ++ all_found GS_findGroupById (spp_groupIds request)
                ++ [Ev (PS_setProblemPermissions p (spp_permissionType request) users groups)
                      Done]
    end.
Proof.
  simpl. intros response Hresponse.
  destruct (setProblemPermissions_runs currentUser request m) as (evs & Htrace & Hrun).
  rewrite (events_since_app _ _ _ Htrace). rewrite Hresponse in Hrun.
  inversion Hrun as [e| |p e|p|p evsU id r out HU Hstop|p evsU evsG id r out HU HG Hstop
                    |p evsU evsG users groups r out HU HG Hout]; subst; simpl.
  - done.
  - eauto.
  - destruct Hstop as [[-> [= ->]]|(e & _ & He)]; [|discriminate He]. simpl.
    apply lookups_stop_inv in HU as (pre & post & Hids & ->).
    exists p, pre, id, post. done.
  - destruct Hstop as [[-> [= ->]]|(e & _ & He)]; [|discriminate He]. simpl.
    apply lookups_none in HU. subst evsU.
    apply lookups_stop_inv in HG as (pre & post & Hids & ->).
    exists p, pre, id, post. done.
  - destruct Hout as [[-> [= ->]]|(e & _ & He)]; [|discriminate He]. simpl.
    apply lookups_none in HU. apply lookups_none in HG. subst evsU evsG.
    split; [done|]. eauto.
Qed.

(** *** All four endpoints *)

Lemma fail_fast_app (pre post : list Event) :
  Forall (fun ev => goes_on (ev_reply ev)) pre → fail_fast post → fail_fast (pre ++ post).
Proof.
  intros Hpre Hpost i ev Hi Hno. rewrite Forall_forall in Hpre.
  apply lookup_app_Some in Hi as [Hi|[Hle Hi]].
  - exfalso. apply Hno, Hpre. eapply list_elem_of_lookup_2. exact Hi.
  - rewrite length_app, (Hpost _ _ Hi Hno). lia.
Qed.

Lemma fail_fast_singleton (ev : Event) : fail_fast [ev].
Proof. intros [|i] ev' Hi _; [done|]. simpl in Hi. by rewrite lookup_nil in Hi. Qed.

Lemma fail_fast_goes_on (evs : list Event) :
  Forall (fun ev => goes_on (ev_reply ev)) evs → fail_fast evs.
Proof.
  intros Hall i ev Hi Hno. rewrite Forall_forall in Hall.
  exfalso. apply Hno, Hall. eapply list_elem_of_lookup_2. exact Hi.
Qed.

Lemma found_goes_on (call : Z → Call) (ids : list Z) :
  Forall (fun ev => goes_on (ev_reply ev)) ((fun id => Ev (call id) Found) <$> ids).
Proof. apply Forall_fmap, Forall_true. intros id. right. by left. Qed.

Lemma lookups_fail_fast (call : Z → Call) (ids : list Z) (evs : list Event)
    (stop : option (Z * Reply)) :
  lookups call ids evs stop →
  fail_fast evs ∧
  match stop with
  | None => Forall (fun ev => goes_on (ev_reply ev)) evs
  | Some (id, r) => last evs = Some (Ev (call id) r)
  end.
Proof.
  destruct 1 as [ids|pre id post r Hr].
  - split; [apply fail_fast_goes_on|]; apply found_goes_on.
  - split; [|apply last_snoc].
    apply fail_fast_app; [apply found_goes_on|apply fail_fast_singleton].
Qed.

Lemma spp_run_fail_fast (currentUser : option UserEntity)
    (request : SetProblemPermissionsRequestDto) (evs : list Event)
    (out : Completion exn SetProblemPermissionsResponseDto) :
  spp_run currentUser request evs out → fail_fast evs ∧ rejects_with_last evs out.
Proof.
  assert (∀ c1 c2, Forall (fun ev => goes_on (ev_reply ev))
                     [Ev c1 Found; Ev c2 (Answered true)]) as Hguards.
  { intros c1 c2. repeat apply Forall_cons_2; [..|apply Forall_nil_2]; unfold goes_on;
      simpl; auto. }
  assert (∀ (evs : list Event) c (r : Reply) error id
            (out : Completion exn SetProblemPermissionsResponseDto),
            last evs = Some (Ev c r) → stopped error id r out →
            rejects_with_last evs out) as Hstopped.
  { intros evs' c r error id out' Hlast [[-> ->]|(e & -> & ->)] e'; rewrite Hlast.
    - split; [discriminate|]. intros [c' H]. discriminate H.
    - split; [intros [= <-]; eauto|]. intros [c' [= _ <-]]. done. }
  destruct 1 as [e| |p e|p|p evsU id r out HU Hstop|p evsU evsG id r out HU HG Hstop
                |p evsU evsG users groups r out HU HG Hout].
  - split; [apply fail_fast_singleton|]. intros e'. simpl.
    split; [intros [= <-]; eauto|]. intros [c' [= _ <-]]. done.
  - split; [apply fail_fast_singleton|]. intros e'. simpl.
    split; [discriminate|]. intros [c' H]. discriminate H.
  - split.
    + apply (fail_fast_app [_] [_]); [|apply fail_fast_singleton].
      apply Forall_cons_2; [|apply Forall_nil_2]. right. by left.
    + intros e'. simpl. split; [intros [= <-]; eauto|]. intros [c' [= _ <-]]. done.
  - split.
    + apply (fail_fast_app [_] [_]); [|apply fail_fast_singleton].
      apply Forall_cons_2; [|apply Forall_nil_2]. right. by left.
    + intros e'. simpl. split; [discriminate|]. intros [c' H]. discriminate H.
  - destruct (lookups_fail_fast _ _ _ _ HU) as [HffU HlastU]. split.
    + apply fail_fast_app; [apply Hguards|done].
    + eapply Hstopped; [|exact Hstop]. rewrite last_app, HlastU. reflexivity.
  - destruct (lookups_fail_fast _ _ _ _ HU) as [_ HallU].
    destruct (lookups_fail_fast _ _ _ _ HG) as [HffG HlastG]. split.
    + apply fail_fast_app; [apply Hguards|]. apply fail_fast_app; done.
    + eapply Hstopped; [|exact Hstop]. rewrite !last_app, HlastG. reflexivity.
  - destruct (lookups_fail_fast _ _ _ _ HU) as [_ HallU].
    destruct (lookups_fail_fast _ _ _ _ HG) as [_ HallG]. split.
    + apply fail_fast_app; [apply Hguards|]. apply fail_fast_app; [done|].
      apply fail_fast_app; [done|apply fail_fast_singleton].
    + intros e'. rewrite !last_app. simpl.
      destruct Hout as [[-> ->]|(e & -> & ->)].
      * split; [discriminate|]. intros [c' H]. discriminate H.
      * split; [intros [= <-]; eauto|]. intros [c' [= _ <-]]. done.
Qed.

Ltac leaf_fail_fast :=
  let i := fresh "i" in
  let Hi := fresh "Hi" in
  let Hno := fresh "Hno" in
  intros i ? Hi Hno; each_position Hi; simplify_eq; simpl in *;
  first [ reflexivity | exfalso; apply Hno; unfold goes_on; auto ].

Ltac leaf_rejects :=
  let e := fresh "e" in
  let H := fresh "H" in
  intros e; simpl; split;
  [ intros H; first [ discriminate H | injection H as <-; eexists; reflexivity ]
  | intros [? H]; first [ discriminate H | by injection H as _ <- ] ].

(** X15: the four endpoints stop at the first call that does not let them go
    on: every call before the last one returned, found what it looked for or
    answered true, so a lookup that finds nothing, a check that answers
    false and a collaborator that rejects are each the last call of the
    request.  And no rejection is swallowed or invented: an endpoint rejects
    with [e] exactly when its last call rejected with [e]. *)
Theorem endpoints_stop_at_first_failure {L} (currentUser : option UserEntity)
    (m : Machine L) :
  (∀ request,
     let run := create currentUser request m in
     let evs := events_since m (snd run) in
     fail_fast evs ∧ rejects_with_last evs (fst run)) ∧
  (∀ request,
     let run := updateStatement currentUser request m in
     let evs := events_since m (snd run) in
     fail_fast evs ∧ rejects_with_last evs (fst run)) ∧
  (∀ request,
     let run := getProblemDetail currentUser request m in
     let evs := events_since m (snd run) in
     fail_fast evs ∧ rejects_with_last evs (fst run)) ∧
  (∀ request,
     let run := setProblemPermissions currentUser request m in
     let evs := events_since m (snd run) in
     fail_fast evs ∧ rejects_with_last evs (fst run)).
Proof.
  split_and!; intros request; simpl.
  - unfold fail_fast, rejects_with_last. unfold_endpoints. unfold_async.
    run_all; events_of_leaf; (split; [leaf_fail_fast|leaf_rejects]).
  - unfold fail_fast, rejects_with_last. unfold_endpoints. unfold_async.
    run_all; events_of_leaf; (split; [leaf_fail_fast|leaf_rejects]).
  - unfold fail_fast, rejects_with_last. unfold_endpoints. unfold_async.
    destruct (truthy (gpd_id request));
      [|destruct (truthy (gpd_displayId request))];
      run_all; events_of_leaf; (split; [leaf_fail_fast|leaf_rejects]).
  - destruct (setProblemPermissions_runs currentUser request m) as (evs & Htrace & Hrun).
    rewrite (events_since_app _ _ _ Htrace). exact (spp_run_fail_fast _ _ _ _ Hrun).
Qed.

End ProblemControllerFurther.

(** * The in-memory implementation at work *)

Section TestbedChecks.
Import Testbed TestbedVariants.

(** A request starting on a database of the testbed. *)
Local Abbreviation session := (boot (Pl := platform)) (only parsing).





Lemma testbed_user_lookup_reads : user_lookup_reads (D := deps).
Proof. intros id w. eexists. reflexivity. Qed.

Lemma testbed_group_lookup_reads : group_lookup_reads (D := deps).
Proof. intros id w. eexists. reflexivity. Qed.

Lemma testbed_answers : answers user_table (array_from_set [2; 9; 2; 1]) [alice; bob].
Proof.
  intros r. split.
  - intros Hr. by_membership Hr; subst r; [exists 1|exists 2]; (split; [|evaluate]);
      apply elem_of_array_from_set; repeat constructor.
  - intros (k & Hk & Hr). apply elem_of_array_from_set in Hk.
    by_membership Hk; subst k; vm_compute in Hr; simplify_eq; repeat constructor.
Qed.

Lemma testbed_user_table_keyed : keyed user_table.
Proof.
  intros k r. unfold user_table.
  repeat (rewrite lookup_insert; case_decide; [by intros [= <-]; subst k|]).
  by rewrite lookup_empty.
Qed.

(** Alice asks for bob's username: the save fails, the check finds the name
    taken.  With the store refusing writes and a free username, the failure
    of the save is raised again.  With the connection lost after the refused
    save, the error of the check is what the call rejects with. *)
Lemma updateUserProfile_diagnoses_failure_witness :
  fst (updateUserProfile (D := deps) (Some "bob") None true None information
         (session alice db0))
  = Fulfilled (Some DUPLICATE_USERNAME) ∧
  fst (updateUserProfile (D := deps) (Some "zed") None true None information
         (session alice db_down))
  = Rejected "ECONNRESET" ∧
  fst (updateUserProfile (D := deps_counts_down) (Some "bob") None true None information
         (session alice db0))
  = Rejected "ECONNRESET".
Proof.
  split_and!.
  - refine (proj1 (updateUserProfile_diagnoses_failure (D := deps)
                     (Some "bob") None true None information (session alice db0)
                     (snd (updateUserProfile_try (D := deps) (Some "bob") None true None
                             information (session alice db0)))
                     "ER_DUP_ENTRY" _) "bob" eq_refl _).
    + evaluate.
    + exists 0%nat. eexists. evaluate.
  - refine (proj1 (proj2 (proj2 (updateUserProfile_diagnoses_failure (D := deps)
                     (Some "zed") None true None information (session alice db_down)
                     (snd (updateUserProfile_try (D := deps) (Some "zed") None true None
                             information (session alice db_down)))
                     "ECONNRESET" _))) db_down db_down _ _).
    + evaluate.
    + evaluate.
    + reflexivity.
  - refine (proj1 (proj2 (proj2 (proj2 (updateUserProfile_diagnoses_failure
                     (D := deps_counts_down)
                     (Some "bob") None true None information (session alice db0)
                     (snd (updateUserProfile_try (D := deps_counts_down) (Some "bob") None
                             true None information (session alice db0)))
                     "ER_DUP_ENTRY" _)))) "bob" "ECONNRESET" db0 eq_refl _).
    + evaluate.
    + evaluate.
Defined.

(** Alice asks for bob's username and the save is refused with
    ER_DUP_ENTRY; the connection is lost and the count rejects with
    ECONNRESET.  No check found a conflict, yet the call rejects with
    ECONNRESET: the error of the refused save is gone. *)
Lemma refused_write_not_always_reraised :
  ¬ original_failure_reraised (D := deps_counts_down).
Proof.
  intros H.
  specialize (H (Some "bob") None true None information (session alice db0)
                (snd (updateUserProfile_try (D := deps_counts_down) (Some "bob") None true
                        None information (session alice db0)))
                "ER_DUP_ENTRY").
  assert (fst (updateUserProfile (D := deps_counts_down) (Some "bob") None true None
                 information (session alice db0))
          = Rejected "ER_DUP_ENTRY") as Hout.
  { apply H.
    - evaluate.
    - intros v _ (n & w' & Hn). vm_compute in Hn. discriminate Hn.
    - intros v w Hv. discriminate Hv. }
  vm_compute in Hout. discriminate Hout.
Defined.


(** Alice owns problem 10; user 9 does not exist. *)
Lemma setProblemPermissions_reports_unknown_principal_witness :
  fst (setProblemPermissions (D := deps) (Some alice)
         (mkSetProblemPermissionsRequestDto 10 WRITE [2; 9; 3] [8]) (session tt db0))
  = Fulfilled (mkSetProblemPermissionsResponseDto
                 (Some SetProblemPermissionsResponseError.NO_SUCH_USER) (Some 9)).
Proof.
  refine (proj1 (setProblemPermissions_reports_unknown_principal (D := deps)
                   (Some alice) (mkSetProblemPermissionsRequestDto 10 WRITE [2; 9; 3] [8])
                   (sp_entity twoSums) (session tt db0) db0 db0
                   testbed_user_lookup_reads testbed_group_lookup_reads _ _)
                9 _); evaluate.
Defined.

(** The same unknown user, on a problem that does not exist: the response
    is NO_SUCH_PROBLEM, not an unknown principal. *)
Lemma unknown_principal_not_always_reported :
  ¬ unknown_principal_always_reported (D := deps).
Proof.
  intros H.
  destruct (H (Some alice) (mkSetProblemPermissionsRequestDto 11 WRITE [9] []) db0)
    as [id [Hid|Hid]].
  - left. exists 9. split; [repeat constructor|evaluate].
  - vm_compute in Hid. discriminate Hid.
  - vm_compute in Hid. discriminate Hid.
Defined.

(** No problem has id 11. *)
Lemma permission_checked_on_existing_problem_witness :
  fst (setProblemPermissions (D := deps) (Some alice)
         (mkSetProblemPermissionsRequestDto 11 WRITE [2] []) (session tt db0))
  = Fulfilled (mkSetProblemPermissionsResponseDto
                 (Some SetProblemPermissionsResponseError.NO_SUCH_PROBLEM) (Some 11)).
Proof.
  refine (proj1 (proj2 (proj1 (proj2 (proj2
            (permission_checked_on_existing_problem (D := deps) (Some alice) (session tt db0))))
            (mkSetProblemPermissionsRequestDto 11 WRITE [2] [])) _)).
  evaluate.
Defined.

(** Bob can read problem 10 through his group and does not control it. *)
Lemma setProblemPermissions_requires_control_witness :
  fst (setProblemPermissions (D := deps) (Some bob)
         (mkSetProblemPermissionsRequestDto 10 WRITE [2] []) (session tt db0))
  = Fulfilled (mkSetProblemPermissionsResponseDto
                 (Some SetProblemPermissionsResponseError.PERMISSION_DENIED) None).
Proof.
  refine (proj1 (proj2 (proj1
            (setProblemPermissions_requires_control (D := deps) (Some bob) (session tt db0))
            (mkSetProblemPermissionsRequestDto 10 WRITE [2] []))
            (Some (sp_entity twoSums)) _)).
  vm_compute. repeat constructor.
Defined.


(** Bob may read problem 10, whose title exists in "en" only. *)
Lemma getProblemDetail_reports_both_locales_witness :
  ∃ response,
    fst (getProblemDetail (D := deps) (Some bob)
           (mkGetProblemDetailRequestDto (Some "10") None "fr") (session tt db0))
    = Fulfilled response ∧
    gp_titleLocale response = Some "en" ∧ gp_contentLocale response = Some "fr".
Proof.
  assert (problem_lookup (D := deps) (mkGetProblemDetailRequestDto (Some "10") None "fr")
            db0 = (Fulfilled (Some (sp_entity twoSums)), db0)) as Hlookup by evaluate.
  assert (ps_userHasPermission (Some bob) READ (Some (sp_entity twoSums)) db0
          = (Fulfilled true, db0)) as Hcheck by evaluate.
  pose proof (proj1 getProblemDetail_reports_both_locales platform deps unit (Some bob)
                (mkGetProblemDetailRequestDto (Some "10") None "fr")
                (sp_entity twoSums) (session tt db0) db0 db0 Hlookup Hcheck)
    as (_ & _ & _ & Hboth).
  destruct (fst (getProblemDetail (D := deps) (Some bob)
                   (mkGetProblemDetailRequestDto (Some "10") None "fr")
                   (session tt db0)))
    as [response|e] eqn:Hresponse; [|vm_compute in Hresponse; discriminate Hresponse].
  exists response. split; [reflexivity|].
  destruct (Hboth response eq_refl)
    as (titleLocale & title & w3 & contentLocale & contentSections & w4
        & Htitle & Hcontent & _ & _ & -> & _ & -> & _).
  vm_compute in Htitle. injection Htitle as <- _ <-.
  vm_compute in Hcontent. injection Hcontent as <- _ _.
  done.
Defined.


(** Carol holds MANAGE_USER and sees alice's email, which is not public. *)
Lemma getUserMeta_email_disclosure_witness :
  ∃ r m',
    getUserMeta (D := deps) alice (Some carol) (session tt db0) = (Fulfilled r, m') ∧
    meta_email r = Some (user_email alice) ∧
    meta_gravatarEmailHash r = md5_hex (toLowerCase (trim (user_email alice))).
Proof.
  pose proof (proj1 (getUserMeta_email_disclosure (D := deps) alice (Some carol)
                       (session tt db0))) as Hmeta.
  destruct (getUserMeta (D := deps) alice (Some carol) (session tt db0))
    as [[r|e] m'] eqn:Hrun; [|vm_compute in Hrun; discriminate Hrun].
  exists r, m'. split; [reflexivity|].
  destruct (Hmeta r m' eq_refl) as (Hemail & _ & Hhash).
  split; [|exact Hhash].
  apply Hemail. right. exists carol. split; [reflexivity|]. right. evaluate.
Defined.

(** Ids 2, 9, 2, 1: bob twice, nobody for 9, alice. *)
Lemma findUsersByExistingIds_by_position_witness :
  ∃ result m',
    findUsersByExistingIds (D := deps) [2; 9; 2; 1] (session tt db0) = (Fulfilled result, m') ∧
    length result = 4%nat ∧
    result !! 0%nat = Some (user_table !! 2) ∧
    result !! 1%nat = Some (user_table !! 9) ∧
    result !! 2%nat = Some (user_table !! 2) ∧
    result !! 3%nat = Some (user_table !! 1).
Proof.
  assert (repo_findByIds (array_from_set [2; 9; 2; 1]) (world (session tt db0))
          = (Fulfilled [alice; bob], db0)) as Hrepo by evaluate.
  destruct (proj1 (findUsersByExistingIds_by_position (D := deps) user_table [2; 9; 2; 1]
                     (session tt db0) [alice; bob] db0
                     testbed_user_table_keyed Hrepo testbed_answers))
    as (result & m' & Hrun & Hlen & Hslot & _).
  exists result, m'. split_and!; [exact Hrun|exact Hlen|by apply Hslot..].
Defined.

End TestbedChecks.

(** * Further runs of the in-memory implementation *)

Section FurtherChecks.
Import Testbed TestbedVariants.

Local Abbreviation session := (boot (Pl := platform)) (only parsing).

(** [findOne] of the testbed reads the user table. *)
Lemma testbed_findOne_table (id : Z) :
  repo_findOne (Deps := deps) id db0 = (Fulfilled (user_table !! id), db0).
Proof.
  destruct (decide (id = 1)) as [->|H1]; [evaluate|].
  destruct (decide (id = 2)) as [->|H2]; [evaluate|].
  destruct (decide (id = 3)) as [->|H3]; [evaluate|].
  destruct (decide (id = 4)) as [->|H4]; [evaluate|].
  unfold user_table. rewrite !lookup_insert_ne by lia. rewrite lookup_empty.
  simpl. unfold t_findOne, find_user. cbn -[Z.eqb].
  by rewrite !(proj2 (Z.eqb_neq _ id)) by lia.
Qed.

(** Two versions of row 2 in the answer: both slots of id 2 get the later
    one; carol, whom nobody asked for, is dropped. *)
Lemma findUsersByExistingIds_last_record_wins_witness :
  fst (findUsersByExistingIds (D := deps_two_versions) [2; 9; 2] (session tt db0))
  = Fulfilled [Some bob_renamed; None; Some bob_renamed].
Proof.
  assert ([2; 9; 2] ≠ @nil Z) as Hne by discriminate.
  pose proof (findUsersByExistingIds_last_record_wins (D := deps_two_versions)
                [2; 9; 2] (session tt db0) Hne) as H.
  hnf in H. destruct H as (result & Hrun & Hresult & _).
  rewrite Hrun, Hresult. evaluate.
Defined.

(** Alice asks for bob's username; the save is refused, and the count that
    should tell why fails too: its error is what the caller gets. *)
Lemma updateUserProfile_failed_check_masks_error_witness :
  fst (updateUserProfile_try (D := deps_counts_down) (Some "bob") None true None information
         (session alice db0))
  = Rejected "ER_DUP_ENTRY" ∧
  fst (updateUserProfile (D := deps_counts_down) (Some "bob") None true None information
         (session alice db0))
  = Rejected "ECONNRESET".
Proof.
  split; [evaluate|].
  refine (proj1 (proj1 (updateUserProfile_failed_check_masks_error (D := deps_counts_down)
                          (Some "bob") None true None information (session alice db0)
                          (snd (updateUserProfile_try (D := deps_counts_down) (Some "bob")
                                  None true None information (session alice db0)))
                          "ER_DUP_ENTRY" _)
                   "bob" "ECONNRESET" db0 eq_refl _)).
  - evaluate.
  - evaluate.
Defined.

(** Ids 2, 9, 2, 1 once more: each slot is what [findUserById] finds. *)
Lemma findUsersByExistingIds_agrees_with_findUserById_witness :
  ∃ result,
    fst (findUsersByExistingIds (D := deps) [2; 9; 2; 1] (session tt db0)) = Fulfilled result ∧
    Forall2 (fun userId slot =>
               fst (findUserById (D := deps) userId (session tt db0)) = Fulfilled slot)
      [2; 9; 2; 1] result.
Proof.
  assert (repo_findByIds (array_from_set [2; 9; 2; 1]) (world (session tt db0))
          = (Fulfilled [alice; bob], world (session tt db0))) as Hrepo by evaluate.
  destruct (findUsersByExistingIds_agrees_with_findUserById (D := deps) user_table
              [2; 9; 2; 1] (session tt db0) [alice; bob]
              testbed_user_table_keyed testbed_findOne_table Hrepo testbed_answers)
    as (result & Hrun & Hslots & _).
  exists result. split; [exact Hrun|exact Hslots].
Defined.

(** Bob reads problem 10: the meta is that of the stored problem. *)
Lemma getProblemDetail_response_witness :
  ∃ response,
    fst (getProblemDetail (D := deps) (Some bob)
           (mkGetProblemDetailRequestDto (Some "10") None "fr") (session tt db0))
    = Fulfilled response ∧
    gp_meta response = Some (meta_of (sp_entity twoSums)) ∧
    gp_samples response = Some [] ∧
    gp_judgeInfo response = Some "default".
Proof.
  destruct (fst (getProblemDetail (D := deps) (Some bob)
                   (mkGetProblemDetailRequestDto (Some "10") None "fr")
                   (session tt db0)))
    as [response|e] eqn:Hresponse; [|vm_compute in Hresponse; discriminate Hresponse].
  assert (gp_error response = None) as Herr.
  { vm_compute in Hresponse. by injection Hresponse as <-. }
  exists response. split; [reflexivity|].
  destruct (getProblemDetail_response (D := deps) (Some bob)
              (mkGetProblemDetailRequestDto (Some "10") None "fr") (session tt db0)
              response Hresponse Herr)
    as (problem & w1 & w2 & titleLocale & title & w3 & contentLocale & contentSections
        & w4 & samples & w5 & judgeInfo & lookup
        & Hlookup & _ & _ & _ & Hsamples & Hjudge & _ & _ & -> & _ & _ & -> & ->).
  vm_compute in Hlookup. injection Hlookup as <- _.
  vm_compute in Hsamples. injection Hsamples as <- _.
  vm_compute in Hjudge. injection Hjudge as <- _.
  done.
Defined.

(** Alice owns problem 10 and grants WRITE to bob, carol and bob again, and
    to group 7: three user lookups, one group lookup, one grant. *)
Lemma setProblemPermissions_grants_resolved_principals_witness :
  fst (setProblemPermissions (D := deps) (Some alice)
         (mkSetProblemPermissionsRequestDto 10 WRITE [2; 3; 2] [7]) (session tt db0))
  = Fulfilled (mkSetProblemPermissionsResponseDto None None) ∧
  ∃ r,
    events_since (session tt db0)
      (snd (setProblemPermissions (D := deps) (Some alice)
              (mkSetProblemPermissionsRequestDto 10 WRITE [2; 3; 2] [7]) (session tt db0)))
    = [Ev (PS_findProblemById 10) Found;
       Ev (PS_userHasPermission (Some alice) CONTROL (Some (sp_entity twoSums)))
          (Answered true);
       Ev (Repo_findOne 2) Found; Ev (Repo_findOne 3) Found; Ev (Repo_findOne 2) Found;
       Ev (GS_findGroupById 7) Found;
       Ev (PS_setProblemPermissions (sp_entity twoSums) WRITE [bob; carol; bob] [7]) r].
Proof.
  assert (ps_findProblemById 10 (world (session tt db0))
          = (Fulfilled (Some (sp_entity twoSums)), db0)) as G1 by evaluate.
  assert (ps_userHasPermission (Some alice) CONTROL (Some (sp_entity twoSums)) db0
          = (Fulfilled true, db0)) as G2 by evaluate.
  assert (first_missing (users_at (D := deps) db0) [2; 3; 2] = None) as HU by evaluate.
  assert (first_missing (groups_at (D := deps) db0) [7] = None) as HG by evaluate.
  pose proof (setProblemPermissions_grants_resolved_principals (D := deps) (Some alice)
                (mkSetProblemPermissionsRequestDto 10 WRITE [2; 3; 2] [7])
                (sp_entity twoSums) (session tt db0) db0 db0
                testbed_user_lookup_reads testbed_group_lookup_reads G1 G2 HU HG) as H.
  cbv zeta in H. destruct H as (_ & _ & (r & Hevs) & Hout).
  split.
  - rewrite Hout. evaluate.
  - exists r. rewrite Hevs. evaluate.
Defined.

(** User 9 does not exist: the response names it, and its lookup, the
    second one, is the last call of the request. *)
Lemma setProblemPermissions_response_witness :
  ∃ p pre post,
    [2; 9; 3] = pre ++ 9 :: post ∧
    events_since (session tt db0)
      (snd (setProblemPermissions (D := deps) (Some alice)
              (mkSetProblemPermissionsRequestDto 10 WRITE [2; 9; 3] [8]) (session tt db0)))
    = [Ev (PS_findProblemById 10) Found;
       Ev (PS_userHasPermission (Some alice) CONTROL (Some p)) (Answered true)]
      ++ ((fun id => Ev (Repo_findOne id) Found) <$> pre)
      ++ [Ev (Repo_findOne 9) Missing].
Proof.
  assert (fst (setProblemPermissions (D := deps) (Some alice)
                 (mkSetProblemPermissionsRequestDto 10 WRITE [2; 9; 3] [8])
                 (session tt db0))
          = Fulfilled (mkSetProblemPermissionsResponseDto
                         (Some SetProblemPermissionsResponseError.NO_SUCH_USER) (Some 9)))
    as Hresponse by evaluate.
  pose proof (setProblemPermissions_response (D := deps) (Some alice)
                (mkSetProblemPermissionsRequestDto 10 WRITE [2; 9; 3] [8])
                (session tt db0) _ Hresponse) as H.
  cbv zeta in H. simpl in H.
  destruct H as (p & pre & id & post & Hids & [= <-] & Hevs).
  exists p, pre, post. split; [exact Hids|exact Hevs].
Defined.

End FurtherChecks.
